(** * NEET question generator: the generation pipeline and the quiz lifecycle

    A shallow embedding of the [App] component (src/App.jsx and its later
    revision with a question count and a CSV export) and the properties of
    its submit handler, scoring and export. *)

From Stdlib Require Import ZArith QArith Qround Qabs Ascii String List Lia Bool.
From stdpp Require Import base tactics option list gmap strings pretty.

Set Warnings "-register-all".

Local Open Scope Z_scope.
Local Open Scope string_scope.
Local Open Scope list_scope.

(** ** JavaScript values

    The values the component handles at run time: what [JSON.parse] and
    [response.json()] produce, plus [undefined].  A number is kept as the
    literal that denotes it; the program never computes with a decoded
    number, it only tests it for truthiness or prints it. *)

Module JS.

Inductive value : Type :=
  | VUndefined
  | VNull
  | VBool (b : bool)
  | VNum (lit : string)
  | VStr (s : string)
  | VArr (items : list value)
  | VObj (fields : list (string * value)).

(** Exceptions a handler can throw. *)
Inductive exn : Type :=
  | JsError (message : string)      (* throw new Error(message) *)
  | TypeError                       (* property access on undefined/null, call of a non-function *)
  | SyntaxError                     (* JSON.parse, response.json() *)
  | Rejected.                       (* a rejected promise: FileReader.onerror *)

Inductive result (A : Type) : Type :=
  | Ok (a : A)
  | Throw (e : exn).
Arguments Ok {A} a.
Arguments Throw {A} e.

(** [o.k] on an object built by [JSON.parse]: when a key is repeated the
    last occurrence wins. *)
Fixpoint own_property (k : string) (fields : list (string * value)) : value :=
  match fields with
  | [] => VUndefined
  | (k', v) :: rest =>
      match own_property k rest with
      | VUndefined => if String.eqb k k' then v else VUndefined
      | later => later
      end
  end.

(** [a[i]] on an array. *)
Definition element (i : nat) (items : list value) : value :=
  default VUndefined (items !! i).

(** UTF-8 bytes of the UTF-16 code unit [n]; strings are kept as UTF-8, a
    surrogate being encoded on its own. *)
Definition utf8 (n : N) : string :=
  let b (k : N) := String (ascii_of_N k) EmptyString in
  if (n <? 128)%N then b n
  else if (n <? 2048)%N then b (192 + n / 64)%N +:+ b (128 + n mod 64)%N
  else b (224 + n / 4096)%N +:+ b (128 + (n / 64) mod 64)%N +:+ b (128 + n mod 64)%N.

(** [String.fromCharCode(n)] *)
Definition String_fromCharCode (n : nat) : string := utf8 (N.of_nat n mod 65536)%N.

Fixpoint join (sep : string) (l : list string) : string :=
  match l with
  | [] => ""
  | [x] => x
  | x :: rest => x +:+ sep +:+ join sep rest
  end.

(** [String(v)], the conversion a template literal and [JSON.parse] apply
    to their argument. *)
Fixpoint ToString (v : value) : string :=
  match v with
  | VUndefined => "undefined"
  | VNull => "null"
  | VBool true => "true"
  | VBool false => "false"
  | VNum lit => lit
  | VStr s => s
  | VArr items =>
      join "," (map (fun x => match x with
                              | VUndefined | VNull => ""
                              | _ => ToString x
                              end) items)
  | VObj _ => "[object Object]"
  end.

Definition is_digit (a : ascii) : bool :=
  let n := N_of_ascii a in ((48 <=? n) && (n <=? 57))%N.

(** A number literal denotes zero when its mantissa has no digit but 0. *)
Fixpoint zero_literal (lit : string) : bool :=
  match lit with
  | EmptyString => true
  | String a rest =>
      if Ascii.eqb a "e" || Ascii.eqb a "E" then true
      else if is_digit a && negb (Ascii.eqb a "0") then false
      else zero_literal rest
  end.

(** Truthiness, as [!v], [v || d] and [v && e] test it. *)
Definition truthy (v : value) : bool :=
  match v with
  | VUndefined | VNull => false
  | VBool b => b
  | VNum lit => negb (zero_literal lit)
  | VStr s => negb (String.eqb s "")
  | VArr _ | VObj _ => true
  end.

(** [v.k] for a key [k] that no prototype defines. *)
Definition get (v : value) (k : string) : result value :=
  match v with
  | VUndefined | VNull => Throw TypeError
  | VObj fields => Ok (own_property k fields)
  | _ => Ok VUndefined
  end.

(** [v[0]] *)
Definition first (v : value) : result value :=
  match v with
  | VUndefined | VNull => Throw TypeError
  | VArr items => Ok (element 0 items)
  | VObj fields => Ok (own_property "0" fields)
  | VStr (String a _) => Ok (VStr (String a EmptyString))
  | _ => Ok VUndefined
  end.

End JS.

(** ** [JSON.parse]

    A recursive-descent parser for the JSON grammar.  The recursion is on a
    fuel argument; [parse_total] shows that the fuel [JSON.parse] supplies is
    always enough, so [Exhausted] never reaches a caller. *)

Module JSON.
Import JS.

Inductive parsed (A : Type) : Type :=
  | Parsed (a : A) (rest : string)
  | Invalid
  | Exhausted.
Arguments Parsed {A} a rest.
Arguments Invalid {A}.
Arguments Exhausted {A}.

Definition is_ws (a : ascii) : bool :=
  Ascii.eqb a " " || Ascii.eqb a "009" || Ascii.eqb a "010" || Ascii.eqb a "013".

Fixpoint skip_ws (s : string) : string :=
  match s with
  | String a rest => if is_ws a then skip_ws rest else s
  | EmptyString => s
  end.

Definition hex_digit (a : ascii) : option N :=
  let n := N_of_ascii a in
  if is_digit a then Some (n - 48)%N
  else if ((97 <=? n) && (n <=? 102))%N then Some (n - 87)%N
  else if ((65 <=? n) && (n <=? 70))%N then Some (n - 55)%N
  else None.

Definition escape (a : ascii) : option string :=
  if Ascii.eqb a "034" then Some (String "034" "")
  else if Ascii.eqb a "\" then Some "\"
  else if Ascii.eqb a "/" then Some "/"
  else if Ascii.eqb a "b" then Some (String "008" "")
  else if Ascii.eqb a "f" then Some (String "012" "")
  else if Ascii.eqb a "n" then Some (String "010" "")
  else if Ascii.eqb a "r" then Some (String "013" "")
  else if Ascii.eqb a "t" then Some (String "009" "")
  else None.

(** The characters of a string literal after its opening quote. *)
Fixpoint string_body (s : string) : parsed string :=
  match s with
  | EmptyString => Invalid
  | String a rest =>
      if Ascii.eqb a "034" then Parsed "" rest
      else if Ascii.eqb a "\" then
        match rest with
        | String e rest1 =>
            if Ascii.eqb e "u" then
              match rest1 with
              | String h1 (String h2 (String h3 (String h4 rest2))) =>
                  match hex_digit h1, hex_digit h2, hex_digit h3, hex_digit h4 with
                  | Some d1, Some d2, Some d3, Some d4 =>
                      match string_body rest2 with
                      | Parsed t r => Parsed (utf8 (((d1 * 16 + d2) * 16 + d3) * 16 + d4)%N +:+ t) r
                      | other => other
                      end
                  | _, _, _, _ => Invalid
                  end
              | _ => Invalid
              end
            else
              match escape e with
              | Some c =>
                  match string_body rest1 with
                  | Parsed t r => Parsed (c +:+ t) r
                  | other => other
                  end
              | None => Invalid
              end
        | EmptyString => Invalid
        end
      else if (N_of_ascii a <? 32)%N then Invalid
      else
        match string_body rest with
        | Parsed t r => Parsed (String a t) r
        | other => other
        end
  end.

Fixpoint digits (s : string) : string * string :=
  match s with
  | String a rest =>
      if is_digit a then let '(d, r) := digits rest in (String a d, r) else ("", s)
  | EmptyString => ("", s)
  end.

(** A number literal: an optional minus sign, an integer part without a
    leading zero, an optional fraction and an optional exponent. *)
Definition number (s : string) : parsed string :=
  let '(sign, s1) :=
    match s with
    | String a r => if Ascii.eqb a "-" then ("-", r) else ("", s)
    | EmptyString => ("", s)
    end in
  let '(int, s2) := digits s1 in
  match int with
  | EmptyString => Invalid
  | String d more =>
      if Ascii.eqb d "0" && negb (String.eqb more "") then Invalid
      else
        let frac :=
          match s2 with
          | String a r =>
              if Ascii.eqb a "." then
                let '(f, r') := digits r in
                if String.eqb f "" then Invalid else Parsed ("." +:+ f) r'
              else Parsed "" s2
          | EmptyString => Parsed "" s2
          end in
        match frac with
        | Parsed f s3 =>
            match s3 with
            | String a r =>
                if Ascii.eqb a "e" || Ascii.eqb a "E" then
                  let '(esign, r1) :=
                    match r with
                    | String b r' =>
                        if Ascii.eqb b "+" || Ascii.eqb b "-"
                        then (String b "", r') else ("", r)
                    | EmptyString => ("", r)
                    end in
                  let '(e, r2) := digits r1 in
                  if String.eqb e "" then Invalid
                  else Parsed (sign +:+ int +:+ f +:+ String a esign +:+ e) r2
                else Parsed (sign +:+ int +:+ f) s3
            | EmptyString => Parsed (sign +:+ int +:+ f) s3
            end
        | other => other
        end
  end.

(** [strip w s]: [s] without its prefix [w]. *)
Fixpoint strip (w s : string) : option string :=
  match w, s with
  | EmptyString, _ => Some s
  | String a w', String b s' => if Ascii.eqb a b then strip w' s' else None
  | String _ _, EmptyString => None
  end.

Definition keyword (w : string) (v : value) (s : string) : parsed value :=
  match strip w s with
  | Some rest => Parsed v rest
  | None => Invalid
  end.

Fixpoint value_at (fuel : nat) (s : string) : parsed value :=
  match fuel with
  | O => Exhausted
  | S fuel =>
      match skip_ws s with
      | EmptyString => Invalid
      | String a rest =>
          if Ascii.eqb a "{" then
            match skip_ws rest with
            | String b rest' =>
                if Ascii.eqb b "}" then Parsed (VObj []) rest' else members fuel [] rest
            | EmptyString => Invalid
            end
          else if Ascii.eqb a "[" then
            match skip_ws rest with
            | String b rest' =>
                if Ascii.eqb b "]" then Parsed (VArr []) rest' else elements fuel [] rest
            | EmptyString => Invalid
            end
          else if Ascii.eqb a "034" then
            match string_body rest with
            | Parsed t r => Parsed (VStr t) r
            | _ => Invalid
            end
          else if Ascii.eqb a "t" then keyword "rue" (VBool true) rest
          else if Ascii.eqb a "f" then keyword "alse" (VBool false) rest
          else if Ascii.eqb a "n" then keyword "ull" VNull rest
          else
            match number (String a rest) with
            | Parsed lit r => Parsed (VNum lit) r
            | _ => Invalid
            end
      end
  end
with elements (fuel : nat) (acc : list value) (s : string) : parsed value :=
  match fuel with
  | O => Exhausted
  | S fuel =>
      match value_at fuel s with
      | Parsed v r =>
          match skip_ws r with
          | String a r' =>
              if Ascii.eqb a "," then elements fuel (v :: acc) r'
              else if Ascii.eqb a "]" then Parsed (VArr (rev (v :: acc))) r'
              else Invalid
          | EmptyString => Invalid
          end
      | other => other
      end
  end
with members (fuel : nat) (acc : list (string * value)) (s : string) : parsed value :=
  match fuel with
  | O => Exhausted
  | S fuel =>
      match skip_ws s with
      | String q r =>
          if Ascii.eqb q "034" then
            match string_body r with
            | Parsed k r1 =>
                match skip_ws r1 with
                | String c r2 =>
                    if Ascii.eqb c ":" then
                      match value_at fuel r2 with
                      | Parsed v r3 =>
                          match skip_ws r3 with
                          | String a r4 =>
                              if Ascii.eqb a "," then members fuel ((k, v) :: acc) r4
                              else if Ascii.eqb a "}" then Parsed (VObj (rev ((k, v) :: acc))) r4
                              else Invalid
                          | EmptyString => Invalid
                          end
                      | other => other
                      end
                    else Invalid
                | EmptyString => Invalid
                end
            | _ => Invalid
            end
          else Invalid
      | EmptyString => Invalid
      end
  end.

(** The fuel [parse] starts with. *)
Definition fuel_for (text : string) : nat := S (2 * String.length text).

(** [JSON.parse(text)] for a string [text]: one value, then only white
    space. *)
Definition parse_with (fuel : nat) (text : string) : parsed value :=
  match value_at fuel text with
  | Parsed v rest =>
      match skip_ws rest with
      | EmptyString => Parsed v ""
      | String _ _ => Invalid
      end
  | other => other
  end.

Definition parse (text : string) : result value :=
  match parse_with (fuel_for text) text with
  | Parsed v _ => Ok v
  | _ => Throw SyntaxError
  end.

End JSON.

(** ** The component *)

Module App.
Import JS.

(** *** Data *)

(** An entry of the form's [FileList].  [file_dataURL] is what
    [FileReader.readAsDataURL] delivers for it: the data URL handed to
    [onload], or [None] when the reader fires [onerror]. *)
Record File : Type := {
  file_name : string;
  file_type : string;
  file_dataURL : option string
}.

(** The object [handleSubmit] passes to [onSubmit]. *)
Record FormData : Type := {
  files : list File;
  numQuestions : value
}.

(** An element of [parts]. *)
Inductive part : Type :=
  | Text (text : string)
  | InlineData (mimeType : string) (data : option string).

(** [payload]: the parts of its single user turn and its generation
    configuration. *)
Record Payload : Type := {
  parts : list part;
  responseMimeType : string;
  responseSchema : value
}.

(** What [fetch] resolves with: [response.ok], and what [response.json()]
    settles with. *)
Record response : Type := {
  ok : bool;
  json : result value
}.

(** One call of [fetch]: the promise rejects or resolves. *)
Inductive attempt : Type :=
  | NetworkError
  | Responded (r : response).

(** A JavaScript number resulting from a division of counts, kept as the
    exact quotient. *)
Inductive number : Type :=
  | NaN
  | Infinity
  | Finite (q : Q).

Record Results : Type := {
  score : nat;
  accuracy : number;
  totalQuestions : nat
}.

(** The five [useState] cells. *)
Record State : Type := {
  loading : bool;
  questions : value;
  answers : gmap nat string;
  results : option Results;
  error : option string
}.

Definition initial : State :=
  {| loading := false; questions := VNull; answers := ∅; results := None; error := None |}.

(** *** Effects

    [onSubmit] is an async function.  It runs on a world made of the
    component state and the log of the operations it awaited.  The state
    setters it calls between two suspensions are applied together, so the
    states the component is rendered in are the one the handler has when it
    suspends and the one it has when it returns: every entry of the log
    records the state at that suspension. *)

Inductive effect : Type :=
  | ReadFile (f : File)
  | Fetch (url : string) (body : Payload)
  | Sleep (ms : N)
  | ReadBody.

Record World : Type := {
  ui : State;
  log : list (State * effect)
}.

Inductive completion (A : Type) : Type :=
  | Normal (a : A)
  | Abrupt (e : exn)
  | OutOfFuel.
Arguments Normal {A} a.
Arguments Abrupt {A} e.
Arguments OutOfFuel {A}.

Definition M (A : Type) : Type := World -> World * completion A.

Definition ret {A : Type} (a : A) : M A := fun w => (w, Normal a).

Definition bind {A B : Type} (m : M A) (k : A -> M B) : M B :=
  fun w =>
    match m w with
    | (w', Normal a) => k a w'
    | (w', Abrupt e) => (w', Abrupt e)
    | (w', OutOfFuel) => (w', OutOfFuel)
    end.

Definition throw {A : Type} (e : exn) : M A := fun w => (w, Abrupt e).

Definition lift {A : Type} (r : result A) : M A :=
  match r with
  | Ok a => ret a
  | Throw e => throw e
  end.

(** [try { body } catch (e) { handler }] *)
Definition try_catch {A : Type} (body : M A) (handler : exn -> M A) : M A :=
  fun w =>
    match body w with
    | (w', Abrupt e) => handler e w'
    | other => other
    end.

(** [await] of an operation: the handler suspends with the current state. *)
Definition await (e : effect) : M unit :=
  fun w => ({| ui := ui w; log := log w ++ [(ui w, e)] |}, Normal tt).

Definition modify (f : State -> State) : M unit :=
  fun w => ({| ui := f (ui w); log := log w |}, Normal tt).

#[global] Instance M_ret : MRet M := @ret.
#[global] Instance M_bind : MBind M := fun A B k m => bind m k.

Definition setLoading (b : bool) : State -> State :=
  fun s => {| loading := b; questions := questions s; answers := answers s;
              results := results s; error := error s |}.
Definition setQuestions (q : value) : State -> State :=
  fun s => {| loading := loading s; questions := q; answers := answers s;
              results := results s; error := error s |}.
Definition setAnswers (a : gmap nat string) : State -> State :=
  fun s => {| loading := loading s; questions := questions s; answers := a;
              results := results s; error := error s |}.
Definition setResults (r : option Results) : State -> State :=
  fun s => {| loading := loading s; questions := questions s; answers := answers s;
              results := r; error := error s |}.
Definition setError (e : option string) : State -> State :=
  fun s => {| loading := loading s; questions := questions s; answers := answers s;
              results := results s; error := e |}.

#[global] Instance result_ret : MRet result := @Ok.
#[global] Instance result_bind : MBind result :=
  fun A B k r => match r with Ok a => k a | Throw e => Throw e end.

(** *** Constants *)

Definition API_URL : string :=
  "https://generativelanguage.googleapis.com/v1beta/models/gemini-2.5-flash-preview-05-20:generateContent?key=".

Definition MAX_RETRIES : nat := 5.

Definition schema_type (t : string) : string * value := ("type", VStr t).

Definition responseSchema_ : value :=
  VObj [schema_type "OBJECT";
        ("properties", VObj [
          ("questions", VObj [
            schema_type "ARRAY";
            ("items", VObj [
              schema_type "OBJECT";
              ("properties", VObj [
                ("questionText", VObj [schema_type "STRING"]);
                ("options", VObj [schema_type "ARRAY";
                                  ("items", VObj [schema_type "STRING"])]);
                ("correctAnswer", VObj [schema_type "STRING"]);
                ("solution", VObj [schema_type "STRING"])])])])])].

(** [a || b] *)
Definition or_else (a b : value) : value := if truthy a then a else b.

(** The two revisions of the component differ in the instruction text and in
    the messages of [onSubmit] (and in the name of the file field, [images]
    or [files]); their exports are [handleExport_images_only] and
    [handleExport]. *)
Record Revision : Type := {
  instruction : FormData -> string;
  no_file_message : string;
  failure_message : string
}.

Definition instruction_head : string :=
  "
          From the following files, generate ".

Definition instruction_tail : string :=
  " NEET-level multiple-choice questions.
          For each question, provide 4 options (A, B, C, D) and a single correct answer.
          Make sure there is exactly the amount of questions as specified above.
          Also, provide a detailed solution/explanation for the correct answer.

          The questions must strictly adhere to the NEET syllabus (Physics, Chemistry, Biology).
          The questions should be challenging and cover key concepts from the provided content.

          The response must be in a specific JSON format to be parsed correctly.
          Do not include any other text or markdown outside of the JSON.
          ".

(** The revision with a question count (and the CSV export). *)
Definition with_count : Revision :=
  {| instruction := fun data =>
       let numQuestions := or_else (numQuestions data) (VNum "10") in
       instruction_head +:+ ToString numQuestions +:+ instruction_tail;
     no_file_message := "Please upload at least one file.";
     failure_message :=
       "Failed to generate questions. Please try again. Ensure files contain relevant text/images." |}.

(** src/App.jsx: images only, a fixed instruction. *)
Definition images_only : Revision :=
  {| instruction := fun _ =>
       "
          From the following images, generate 10-20 NEET-level multiple-choice questions.
          For each question, provide 4 options (A, B, C, D) and a single correct answer.
          Also, provide a detailed solution/explanation for the correct answer.
          
          The questions must strictly adhere to the NEET syllabus (Physics, Chemistry, Biology).
          The questions should be challenging and cover key concepts from the images.
          
          The response must be in a specific JSON format to be parsed correctly.
          Do not include any other text or markdown outside of the JSON.
          ";
     no_file_message := "Please upload at least one image.";
     failure_message :=
       "Failed to generate questions. Please try again with different content." |}.

(** *** [fileToBase64] *)

(** [s.split(c)] *)
Fixpoint split (c : ascii) (s : string) : list string :=
  match s with
  | EmptyString => [""]
  | String a rest =>
      if Ascii.eqb a c then "" :: split c rest
      else
        match split c rest with
        | piece :: pieces => String a piece :: pieces
        | [] => [String a ""]
        end
  end.

(** The promise [fileToBase64(file)] settles with
    [reader.result.split(',')[1]], or rejects. *)
Definition fileToBase64 (file : File) : M (option string) :=
  await (ReadFile file) ;;
  match file_dataURL file with
  | Some url => ret (split "," url !! 1%nat)
  | None => throw Rejected
  end.

(** *** [onSubmit] *)

Section Submit.

Variable rev : Revision.
Variable API_KEY : string.
(** [transport n]: how the [n]-th call of [fetch] (counted from 0) settles. *)
Variable transport : nat -> attempt.

(** [for (const file of files) { ... parts.push(...) }] *)
Fixpoint push_files (files : list File) (parts : list part) : M (list part) :=
  match files with
  | [] => ret parts
  | file :: more =>
      base64Data ← fileToBase64 file;
      push_files more (parts ++ [InlineData (file_type file) base64Data])
  end.

Definition backoff (retries : nat) : N := (2 ^ N.of_nat retries * 100)%N.

(** [while (retries < MAX_RETRIES) { try { ... } catch (e) {} retries++; await ... }]
    Every iteration calls [fetch] once and every failure increments
    [retries], so the call made with [retries] failures behind it is call
    number [retries]. *)
Fixpoint retry_loop (fuel : nat) (payload : Payload) (retries : nat)
    (response_ : option response) : M (option response) :=
  match fuel with
  | O => fun w => (w, OutOfFuel)
  | S fuel =>
      if (retries <? MAX_RETRIES)%nat then
        await (Fetch (API_URL +:+ API_KEY) payload) ;;
        match transport retries with
        | Responded r =>
            if ok r then ret (Some r)
            else
              await (Sleep (backoff (S retries))) ;;
              retry_loop fuel payload (S retries) (Some r)
        | NetworkError =>
            await (Sleep (backoff (S retries))) ;;
            retry_loop fuel payload (S retries) response_
        end
      else ret response_
  end.

(** The retry loop and the check that follows it. *)
Definition call_api (payload : Payload) : M response :=
  response_ ← retry_loop (S MAX_RETRIES) payload 0 None;
  match response_ with
  | Some r => if ok r then ret r else throw (JsError "API call failed after multiple retries.")
  | None => throw (JsError "API call failed after multiple retries.")
  end.

(** [result.candidates[0].content.parts[0].text] *)
Definition generated_text (result_ : value) : result value :=
  match get result_ "candidates" with
  | Ok candidates =>
      match first candidates with
      | Ok candidate =>
          match get candidate "content" with
          | Ok content =>
              match get content "parts" with
              | Ok parts_ =>
                  match first parts_ with
                  | Ok part_ => get part_ "text"
                  | Throw e => Throw e
                  end
              | Throw e => Throw e
              end
          | Throw e => Throw e
          end
      | Throw e => Throw e
      end
  | Throw e => Throw e
  end.

(** [JSON.parse(jsonString).questions] for the text found in [result_]. *)
Definition decode_questions (result_ : value) : result value :=
  jsonString ← generated_text result_;
  parsedData ← JSON.parse (ToString jsonString);
  get parsedData "questions".

(** The lines from [response.json()] to [parsedData.questions]. *)
Definition read_questions (r : response) : M value :=
  await ReadBody ;;
  result_ ← lift (json r);
  lift (decode_questions result_).

Definition build_payload (data : FormData) : M Payload :=
  (if (length (files data) =? 0)%nat
   then throw (JsError (no_file_message rev)) else ret tt) ;;
  parts_ ← push_files (files data) [Text (instruction rev data)];
  ret {| parts := parts_;
         responseMimeType := "application/json";
         responseSchema := responseSchema_ |}.

Definition onSubmit (data : FormData) : M unit :=
  modify (setLoading true) ;;
  modify (setQuestions VNull) ;;
  modify (setResults None) ;;
  modify (setError None) ;;
  modify (setAnswers ∅) ;;
  try_catch
    (payload ← build_payload data;
     response_ ← call_api payload;
     questions_ ← read_questions response_;
     modify (setQuestions questions_) ;;
     modify (setLoading false))
    (fun e =>
       modify (setError (Some (failure_message rev))) ;;
       modify (setLoading false)).

End Submit.

(** *** The quiz *)

(** [handleAnswerSelect(questionIndex, selectedOption)] *)
Definition handleAnswerSelect (questionIndex : nat) (selectedOption : string)
    (s : State) : State :=
  setAnswers (<[questionIndex := selectedOption]> (answers s)) s.

Fixpoint each {A : Type} (f : value -> nat -> A -> result A)
    (items : list value) (index : nat) (acc : A) : result A :=
  match items with
  | [] => Ok acc
  | item :: rest =>
      match f item index acc with
      | Ok acc' => each f rest (S index) acc'
      | Throw e => Throw e
      end
  end.

(** [v.forEach((item, index) => ...)], the callback updating [acc]. *)
Definition forEach {A : Type} (v : value) (f : value -> nat -> A -> result A)
    (acc : A) : result A :=
  match v with
  | VArr items => each f items 0%nat acc
  | _ => Throw TypeError
  end.

(** [answers[index] === v] *)
Definition strict_equal (answer : option string) (v : value) : bool :=
  match answer, v with
  | None, VUndefined => true
  | Some a, VStr c => String.eqb a c
  | _, _ => false
  end.

(** [a / b] on two counts *)
Definition divide (a b : nat) : number :=
  match b, a with
  | O, O => NaN
  | O, S _ => Infinity
  | S _, _ => Finite (Z.of_nat a # Pos.of_nat b)
  end.

(** [x * 100] *)
Definition times_100 (x : number) : number :=
  match x with
  | Finite q => Finite (q * 100)
  | other => other
  end.

(** [v.length] on an array *)
Definition array_length (v : value) : nat :=
  match v with
  | VArr items => length items
  | _ => 0%nat
  end.

(** [answers[index] === question.correctAnswer], the test of the scoring
    loop and of the results list. *)
Definition is_correct (s : State) (index : nat) (question : value) : result bool :=
  expected ← get question "correctAnswer";
  Ok (strict_equal (answers s !! index) expected).

(** The callback of [questions.forEach] in [calculateResults]. *)
Definition tally (s : State) (question : value) (index correctCount : nat) : result nat :=
  hit ← is_correct s index question;
  Ok (if hit : bool then S correctCount else correctCount).

Definition calculateResults (s : State) : result State :=
  correctCount ← forEach (questions s) (tally s) 0%nat;
  let totalQuestions_ := array_length (questions s) in
  let score_ := correctCount in
  let accuracy_ := times_100 (divide correctCount totalQuestions_) in
  Ok (setResults
        (Some {| score := score_; accuracy := accuracy_; totalQuestions := totalQuestions_ |})
        s).

(** [x.toFixed(2)] on a quotient of counts: the nearest hundredth, halves
    upwards. *)
Definition two_digits (n : Z) : string :=
  if (n <? 10)%Z then "0" +:+ pretty n else pretty n.

Definition toFixed_2 (x : number) : string :=
  match x with
  | NaN => "NaN"
  | Infinity => "Infinity"
  | Finite q =>
      let h := Qfloor (Qabs q * 100 + (1 # 2))%Q in
      (if Qlt_le_dec q 0 then (if (h =? 0)%Z then "" else "-") else "")
      +:+ pretty (h / 100) +:+ "." +:+ two_digits (h mod 100)
  end.

(** The conditions under which the component renders each of its blocks. *)
Definition shows_spinner (s : State) : bool := loading s.
Definition shows_error (s : State) : bool :=
  match error s with Some m => negb (String.eqb m "") | None => false end.
Definition shows_quiz (s : State) : bool :=
  truthy (questions s) && negb (bool_decide (is_Some (results s))).
Definition shows_results (s : State) : bool := bool_decide (is_Some (results s)).

(** *** [handleExport] *)

Record Download : Type := {
  content : string;
  filename : string;
  mime : string
}.

Definition nl : string := String "010" "".
Definition quote : string := String "034" "".

(** [s.replace] of every double quote by two of them *)
Fixpoint double_quotes (s : string) : string :=
  match s with
  | EmptyString => EmptyString
  | String a rest =>
      if Ascii.eqb a "034" then String a (String a (double_quotes rest))
      else String a (double_quotes rest)
  end.

Definition quoted_field (v : value) : result string :=
  match v with
  | VStr s => Ok (quote +:+ double_quotes s +:+ quote)
  | _ => Throw TypeError
  end.

Definition csv_row (q : value) (_ : nat) (exportContent : string) : result string :=
  f1 ← get q "questionText";
  questionText_ ← quoted_field f1;
  f2 ← get q "correctAnswer";
  correctAnswer_ ← quoted_field f2;
  f3 ← get q "solution";
  solution_ ← quoted_field f3;
  Ok (exportContent +:+ questionText_ +:+ "," +:+ correctAnswer_ +:+ "," +:+ solution_ +:+ nl).

Definition txt_option (opt : value) (optIndex : nat) (exportContent : string) : result string :=
  Ok (exportContent +:+ "  " +:+ String_fromCharCode (65 + optIndex) +:+ ". "
      +:+ ToString opt +:+ nl).

Definition txt_question (q : value) (index : nat) (exportContent : string) : result string :=
  questionText_ ← get q "questionText";
  let exportContent :=
    exportContent +:+ "Question " +:+ pretty (index + 1)%nat +:+ ": "
    +:+ ToString questionText_ +:+ nl in
  options_ ← get q "options";
  exportContent ← forEach options_ txt_option exportContent;
  correctAnswer_ ← get q "correctAnswer";
  let exportContent :=
    exportContent +:+ "Correct Answer: " +:+ ToString correctAnswer_ +:+ nl in
  solution_ ← get q "solution";
  Ok (exportContent +:+ "Solution: " +:+ ToString solution_ +:+ nl +:+ nl).

(** [handleExport(format)] of the revision with a question count: what is
    handed to the browser for download, if anything. *)
Definition handleExport (format : string) (s : State) : result (option Download) :=
  if negb (truthy (questions s)) then Ok None
  else if String.eqb format "csv" then
    exportContent ← forEach (questions s) csv_row
      (quote +:+ "Question" +:+ quote +:+ "," +:+ quote +:+ "Correct Answer" +:+ quote
       +:+ "," +:+ quote +:+ "Solution" +:+ quote +:+ nl);
    Ok (Some {| content := exportContent;
                filename := "neet_questions_and_solutions.csv";
                mime := "text/csv;charset=utf-8;" |})
  else
    exportContent ← forEach (questions s) txt_question "";
    Ok (Some {| content := exportContent;
                filename := "neet_questions_and_solutions.txt";
                mime := "text/plain;charset=utf-8" |}).

(** [handleExport()] of src/App.jsx:
    [questions.map(q => ...).join('\n\n')]. *)
Definition colon_line (q : value) (_ : nat) (lines : list string) : result (list string) :=
  questionText_ ← get q "questionText";
  correctAnswer_ ← get q "correctAnswer";
  solution_ ← get q "solution";
  Ok (lines ++ [ToString questionText_ +:+ ":" +:+ ToString correctAnswer_ +:+ ":"
                +:+ ToString solution_]).

Definition handleExport_images_only (s : State) : result (option Download) :=
  if negb (truthy (questions s)) then Ok None
  else
    lines ← forEach (questions s) colon_line [];
    Ok (Some {| content := join (nl +:+ nl) lines;
                filename := "neet_questions_and_solutions.txt";
                mime := "text/plain;charset=utf-8" |}).

(** *** Question sets

    The records the response schema asks the service for, and the values
    [JSON.parse] builds for them. *)

Record Question : Type := {
  questionText : string;
  options : list string;
  correctAnswer : string;
  solution : string
}.

Definition Question_value (q : Question) : value :=
  VObj [("questionText", VStr (questionText q));
        ("options", VArr (map VStr (options q)));
        ("correctAnswer", VStr (correctAnswer q));
        ("solution", VStr (solution q))].

Definition QuestionSet_value (qs : list Question) : value :=
  VArr (map Question_value qs).

(** The state in which the quiz on [qs] is being answered. *)
Definition answering (qs : list Question) (a : gmap nat string) : State :=
  {| loading := false; questions := QuestionSet_value qs; answers := a;
     results := None; error := None |}.

(** The state [onSubmit] establishes before it does anything else, and the
    two states it can end in. *)
Definition cleared : State :=
  {| loading := true; questions := VNull; answers := ∅; results := None; error := None |}.

Definition failed (message : string) : State :=
  {| loading := false; questions := VNull; answers := ∅; results := None;
     error := Some message |}.

Definition generated (questions_ : value) : State :=
  {| loading := false; questions := questions_; answers := ∅; results := None;
     error := None |}.

(** *** Reading the log *)

Definition is_fetch (e : effect) : bool :=
  match e with Fetch _ _ => true | _ => false end.

(** The number of requests sent. *)
Definition fetch_count (l : list (State * effect)) : nat :=
  length (List.filter (fun entry => is_fetch (snd entry)) l).

(** The states the component is rendered in from the start of a run on [w]
    to its end in [w']: one per suspension, then the final one. *)
Definition rendered (w w' : World) : list State :=
  map fst (drop (length (log w)) (log w')) ++ [ui w'].

(** [w] after the handler awaited [added] without touching the state. *)
Definition extend (w : World) (added : list (State * effect)) : World :=
  {| ui := ui w; log := log w ++ added |}.

(** What [k] failed attempts leave in the log when the first of them is made
    with [retries] failures behind it: a request, then the wait. *)
Fixpoint failed_rounds (st : State) (url : string) (body : Payload)
    (retries k : nat) : list (State * effect) :=
  match k with
  | O => []
  | S k =>
      (st, Fetch url body) :: (st, Sleep (2 ^ N.of_nat (S retries) * 100)%N)
      :: failed_rounds st url body (S retries) k
  end.

(** [m] only awaits, and sends at most [n] requests: it leaves the state
    alone, so every entry it logs carries the state it started in, and it
    does not run out of fuel. *)
Definition quiet (n : nat) {A : Type} (m : M A) : Prop :=
  forall w, exists added c,
    m w = (extend w added, c)
    /\ Forall (fun entry => fst entry = ui w) added
    /\ (fetch_count added <= n)%nat
    /\ c <> OutOfFuel.

Definition succeeded (a : attempt) : bool :=
  match a with
  | Responded r => ok r
  | NetworkError => false
  end.

(** *** The terms of the specification *)

(** The attachment of a file: its media type and the base64 part of its
    data URL. *)
Definition encoded (f : File) : part :=
  InlineData (file_type f) (url ← file_dataURL f; split "," url !! 1%nat).

Definition readable (f : File) : Prop := is_Some (file_dataURL f).

(** The request the specification describes for a submission: the
    instruction, then one attachment per file in the order of the files. *)
Definition request (rev : Revision) (data : FormData) : Payload :=
  {| parts := Text (instruction rev data) :: map encoded (files data);
     responseMimeType := "application/json";
     responseSchema := responseSchema_ |}.


(** The fragment is a text that [JSON.parse] rejects. *)
Definition fragment_undecodable (r : response) : bool :=
  match json r with
  | Ok result_ =>
      match generated_text result_ with
      | Ok (VStr text) =>
          match JSON.parse text with Throw _ => true | Ok _ => false end
      | _ => false
      end
  | Throw _ => false
  end.

(** What the validator makes of a response. *)
Definition validated (r : response) : result value :=
  result_ ← json r; decode_questions result_.

(** The response envelope around a generated text. *)
Definition envelope (text : string) : value :=
  VObj [("candidates",
         VArr [VObj [("content",
                      VObj [("parts", VArr [VObj [("text", VStr text)]])])]])].


(** Question [i] is answered correctly: [AnswerMap[i]] is
    [QuestionSet[i].correctAnswer]. *)
Definition correct_at (a : gmap nat string) (qs : list Question) (i : nat) : Prop :=
  a !! i = (correctAnswer <$> qs !! i).

#[global] Instance correct_at_dec a qs i : Decision (correct_at a qs i).
Proof. unfold correct_at. apply _. Defined.

Definition correct_indices (a : gmap nat string) (qs : list Question) : list nat :=
  filter (correct_at a qs) (seq 0 (length qs)).



Fixpoint concat_all (l : list string) : string :=
  match l with
  | [] => ""
  | x :: rest => x +:+ concat_all rest
  end.

(** The [j]-th capital letter, for [j < 26]. *)
Definition letter (j : nat) : string := String (ascii_of_nat (65 + j)) "".

(** The plain-text export as the specification words it: per question its
    1-based index and text, each option after its letter, the correct
    answer, the solution, and a blank line. *)
Definition option_line (j : nat) (opt : string) : string :=
  "  " +:+ letter j +:+ ". " +:+ opt +:+ nl.

Definition question_block (i : nat) (q : Question) : string :=
  "Question " +:+ pretty (S i) +:+ ": " +:+ questionText q +:+ nl
  +:+ concat_all (imap option_line (options q))
  +:+ "Correct Answer: " +:+ correctAnswer q +:+ nl
  +:+ "Solution: " +:+ solution q +:+ nl
  +:+ nl.

Definition plain_text (qs : list Question) : string :=
  concat_all (imap question_block qs).

(** JSON texts of the examples are written with ' for the double quote. *)
Fixpoint json_text (s : string) : string :=
  match s with
  | EmptyString => EmptyString
  | String a rest => String (if Ascii.eqb a "'" then "034"%char else a) (json_text rest)
  end.

(** A decimal numeral that starts with a digit other than 0. *)
Definition leading_digit (t : string) : bool :=
  match t with
  | String d _ => is_digit d && negb (Ascii.eqb d "0")
  | EmptyString => false
  end.

(** How a value of the count field shows in the instruction: what is
    falsy is replaced by 10, anything else is printed as it is. *)
Inductive count_shown : value -> string -> Prop :=
  | count_undefined : count_shown VUndefined "10"
  | count_null : count_shown VNull "10"
  | count_empty : count_shown (VStr "") "10"
  | count_zero : count_shown (VNum "0") "10"
  | count_number (n : Z) : n <> 0%Z -> count_shown (VNum (pretty n)) (pretty n)
  | count_text (s : string) : s <> "" -> count_shown (VStr s) s.

(** *** Sample data *)

Definition no_world : World := {| ui := initial; log := [] |}.

Definition page : File :=
  {| file_name := "page1.png"; file_type := "image/png";
     file_dataURL := Some "data:image/png;base64,iVBORw0KGgo=" |}.

Definition notes : File :=
  {| file_name := "notes.pdf"; file_type := "application/pdf";
     file_dataURL := Some "data:application/pdf;base64,JVBERi0xLjQ=" |}.

Definition two_files (count : value) : FormData :=
  {| files := [page; notes]; numQuestions := count |}.

Definition unavailable : response := {| ok := false; json := Throw SyntaxError |}.

Definition reply (text : string) : response :=
  {| ok := true; json := Ok (envelope text) |}.

(** A transport that settles its calls as [script] says, and rejects once
    the script is over. *)
Definition scripted (script : list attempt) (n : nat) : attempt :=
  default NetworkError (script !! n).

Definition q1 : Question :=
  {| questionText := "Q1"; options := ["a"; "b"; "c"; "d"];
     correctAnswer := "A"; solution := "S" |}.

Definition q1_text : string :=
  json_text "{'questions':[{'questionText':'Q1','options':['a','b','c','d'],'correctAnswer':'A','solution':'S'}]}".

Definition abc : list Question :=
  [ {| questionText := "first"; options := ["1"; "2"; "3"; "4"];
       correctAnswer := "A"; solution := "one" |};
    {| questionText := "second"; options := ["1"; "2"; "3"; "4"];
       correctAnswer := "B"; solution := "two" |};
    {| questionText := "third"; options := ["1"; "2"; "3"; "4"];
       correctAnswer := "C"; solution := "three" |} ].

Definition a_x_c : gmap nat string :=
  {[ 0%nat := "A"; 1%nat := "X"; 2%nat := "C" ]}.

(** A question record with nothing but its text. *)
Definition bare_question : value := VObj [("questionText", VStr "Q1")].


(** *** The rest of the interface *)

(** [value={String.fromCharCode(65 + optIndex)}] of the radio input of an
    option. *)
Definition option_value (optIndex : nat) : string := String_fromCharCode (65 + optIndex).

(** A change of the radio input of option [optIndex] of question [qIndex]:
    [onChange={(e) => handleAnswerSelect(qIndex, e.target.value)}]. *)
Definition choose (qIndex optIndex : nat) (s : State) : State :=
  handleAnswerSelect qIndex (option_value optIndex) s.

Record click : Type := {
  click_question : nat;
  click_option : nat
}.

(** The quiz block renders a radio input for [c]. *)
Definition offered (qs : list Question) (c : click) : Prop :=
  exists q, qs !! click_question c = Some q /\ (click_option c < length (options q))%nat.

(** A series of changes, in order. *)
Definition clicks (cs : list click) (s : State) : State :=
  foldl (fun st c => choose (click_question c) (click_option c) st) s cs.


(** *** Terms of the further properties *)

Fixpoint has_comma (s : string) : bool :=
  match s with
  | EmptyString => false
  | String a rest => Ascii.eqb a "," || has_comma rest
  end.

(** [q.k] is a string. *)
Definition text_field (q : value) (k : string) : bool :=
  match get q k with
  | Ok (VStr _) => true
  | _ => false
  end.

(** The records the CSV export can write: its three fields are strings. *)
Definition csv_ready (q : value) : bool :=
  text_field q "questionText" && text_field q "correctAnswer" && text_field q "solution".


(** The values a property can be read from. *)
Definition has_properties (q : value) : bool :=
  match q with
  | VUndefined | VNull => false
  | _ => true
  end.

(** The CSV export in the words of its comments: a header, then per question
    the three fields in double quotes, inner double quotes doubled. *)
Definition csv_header : string :=
  quote +:+ "Question" +:+ quote +:+ "," +:+ quote +:+ "Correct Answer" +:+ quote
  +:+ "," +:+ quote +:+ "Solution" +:+ quote +:+ nl.

Definition csv_field (s : string) : string := quote +:+ double_quotes s +:+ quote.

Definition csv_line (q : Question) : string :=
  csv_field (questionText q) +:+ "," +:+ csv_field (correctAnswer q) +:+ ","
  +:+ csv_field (solution q) +:+ nl.

Definition csv_text (qs : list Question) : string :=
  csv_header +:+ concat_all (map csv_line qs).

(** A line of the export of src/App.jsx. *)
Definition colon_text (q : Question) : string :=
  questionText q +:+ ":" +:+ correctAnswer q +:+ ":" +:+ solution q.

(** The number of double quotes of a string. *)
Fixpoint quote_count (s : string) : nat :=
  match s with
  | EmptyString => 0%nat
  | String a rest => ((if Ascii.eqb a "034" then 1 else 0) + quote_count rest)%nat
  end.

(** An entry of the log is the request [body] to [url], or a wait. *)
Definition is_round (url : string) (body : Payload) (e : effect) : Prop :=
  e = Fetch url body \/ exists ms, e = Sleep ms.

(** The blocks the component renders in a state: spinner, error, quiz,
    results. *)
Definition blocks (s : State) : bool * bool * bool * bool :=
  (shows_spinner s, shows_error s, shows_quiz s, shows_results s).

(** A question set in which every question has options and a correct answer
    that is the letter of one of them. *)
Definition lettered (q : Question) : Prop :=
  exists j, (j < length (options q))%nat /\ correctAnswer q = option_value j.

End App.

(** * Properties *)

Import JS App.
Local Open Scope nat_scope.

(** ** [JSON.parse] never runs out of fuel *)

Section ParserTotal.
Import JSON.

(** Every parser returns a rest shorter than its input. *)
Lemma skip_ws_length s : String.length (skip_ws s) <= String.length s.
Proof. induction s as [|a s IH]; simpl; [lia|]. destruct (is_ws a); simpl; lia. Qed.

Lemma skip_ws_cons s a r : skip_ws s = String a r -> String.length r < String.length s.
Proof. intros H. pose proof (skip_ws_length s) as L. rewrite H in L. simpl in L. lia. Qed.

Lemma string_body_length_aux n : forall s t r,
  String.length s <= n -> string_body s = Parsed t r -> String.length r < String.length s.
Proof.
  induction n as [|n IH]; intros s t r Hn H.
  - destruct s; simpl in *; [discriminate|lia].
  - destruct s as [|a s]; simpl in H; [discriminate|].
    simpl in Hn.
    repeat case_match; simplify_eq; simpl in *; try lia;
      match goal with
      | E : string_body _ = Parsed _ _ |- _ => apply IH in E; simpl in *; lia
      end.
Qed.

Lemma string_body_length s t r :
  string_body s = Parsed t r -> String.length r < String.length s.
Proof. eapply string_body_length_aux; eauto. Qed.

Lemma digits_length s d r : digits s = (d, r) -> String.length r + String.length d = String.length s.
Proof.
  revert d r. induction s as [|a s IH]; intros d r H; simpl in H.
  - by simplify_eq.
  - destruct (is_digit a).
    + destruct (digits s) as [d' r'] eqn:E. simplify_eq. specialize (IH _ _ eq_refl). simpl. lia.
    + simplify_eq. simpl. lia.
Qed.

Lemma number_length s lit r : number s = Parsed lit r -> String.length r < String.length s.
Proof.
  unfold number. intros H.
  repeat (case_match; simplify_eq; simpl in *);
  repeat match goal with
  | E : digits _ = _ |- _ => apply digits_length in E; simpl in E
  end; try lia.
Qed.

Lemma strip_length w s r : strip w s = Some r -> String.length r <= String.length s.
Proof.
  revert s. induction w as [|a w IH]; intros s H; simpl in H.
  - simplify_eq. lia.
  - destruct s as [|b s]; [discriminate|]. destruct (Ascii.eqb a b); [|discriminate].
    apply IH in H. simpl. lia.
Qed.

Lemma keyword_length w v s x r : keyword w v s = Parsed x r -> String.length r <= String.length s.
Proof. unfold keyword. destruct (strip w s) eqn:E; intros; simplify_eq. by eapply strip_length. Qed.


Ltac shorter :=
  repeat match goal with
  | E : skip_ws _ = String _ _ |- _ => apply skip_ws_cons in E
  | E : string_body _ = Parsed _ _ |- _ => apply string_body_length in E
  | E : number _ = Parsed _ _ |- _ => apply number_length in E
  | E : keyword _ _ _ = Parsed _ _ |- _ => apply keyword_length in E
  end; simpl in *.

Lemma descent_length n :
  (forall s v r, value_at n s = Parsed v r -> String.length r < String.length s) /\
  (forall acc s v r, elements n acc s = Parsed v r -> String.length r < String.length s) /\
  (forall acc s v r, members n acc s = Parsed v r -> String.length r < String.length s).
Proof.
  induction n as [|n (IHv & IHe & IHm)]; [by repeat split|].
  repeat split; intros; simpl in *;
    repeat (case_match; simplify_eq);
    repeat match goal with
    | E : value_at n _ = Parsed _ _ |- _ => apply IHv in E
    | E : elements n _ _ = Parsed _ _ |- _ => apply IHe in E
    | E : members n _ _ = Parsed _ _ |- _ => apply IHm in E
    end; shorter; lia.
Qed.

Lemma value_at_length n s v r :
  value_at n s = Parsed v r -> String.length r < String.length s.
Proof. apply descent_length. Qed.

(** Two units of fuel per character are enough. *)
Lemma descent_fuel n :
  (forall s, 2 * String.length s + 1 <= n -> value_at n s <> Exhausted) /\
  (forall acc s, 2 * String.length s + 2 <= n -> elements n acc s <> Exhausted) /\
  (forall acc s, 2 * String.length s + 2 <= n -> members n acc s <> Exhausted).
Proof.
  induction n as [|n (IHv & IHe & IHm)]; [repeat split; intros; lia|].
  repeat split; intros; simpl;
    repeat (case_match; simplify_eq); try done;
    repeat match goal with
    | E : value_at n _ = Parsed _ _ |- _ => apply value_at_length in E
    end; shorter;
    first [ apply IHv | apply IHe | apply IHm
          | match goal with E : value_at n ?s = Exhausted |- _ => exfalso; apply (IHv s); [|exact E] end
          | idtac ]; try lia.
  all: unfold keyword; by case_match.
Qed.

Lemma parse_total text : parse_with (fuel_for text) text <> Exhausted.
Proof.
  unfold parse_with, fuel_for.
  destruct (value_at _ text) eqn:E; try done.
  - repeat case_match; done.
  - exfalso. eapply (proj1 (descent_fuel _)); [|exact E]. lia.
Qed.

(** So [JSON.parse] throws only on a text that is not JSON. *)
Lemma parse_throws_on_invalid text e :
  parse text = Throw e -> parse_with (fuel_for text) text = Invalid /\ e = SyntaxError.
Proof.
  unfold parse. pose proof (parse_total text) as Htotal.
  destruct (parse_with (fuel_for text) text); [done| |done].
  intros [= <-]. done.
Qed.

End ParserTotal.


(** ** The handler's effects *)

Lemma extend_nil w : extend w [] = w.
Proof. destruct w. unfold extend. simpl. by rewrite app_nil_r. Qed.

Lemma extend_extend w l1 l2 : extend (extend w l1) l2 = extend w (l1 ++ l2).
Proof. unfold extend. simpl. by rewrite app_assoc. Qed.

Lemma bind_normal {A B} (m : M A) (k : A -> M B) w w' a :
  m w = (w', Normal a) -> (m ≫= k) w = k a w'.
Proof. intros H. unfold mbind, M_bind, bind. by rewrite H. Qed.

Lemma bind_abrupt {A B} (m : M A) (k : A -> M B) w w' e :
  m w = (w', Abrupt e) -> (m ≫= k) w = (w', Abrupt e).
Proof. intros H. unfold mbind, M_bind, bind. by rewrite H. Qed.

(** The retry loop when the first success comes after [d] failures, and when
    none comes. *)
Section Retry.
Variable API_KEY : string.
Variable transport : nat -> attempt.
Variable payload : Payload.
Let url := API_URL +:+ API_KEY.

Lemma retry_loop_first_success r : forall d fuel retries response_ w,
  (forall i, retries <= i < retries + d -> succeeded (transport i) = false) ->
  transport (retries + d) = Responded r -> ok r = true ->
  retries + d < MAX_RETRIES -> d < fuel ->
  retry_loop API_KEY transport fuel payload retries response_ w =
    (extend w (failed_rounds (ui w) url payload retries d ++ [(ui w, Fetch url payload)]),
     Normal (Some r)).
Proof.
  induction d as [|d IH]; intros fuel retries response_ w Hfail Hr Hok Hlt Hfuel.
  - destruct fuel as [|fuel]; [lia|]. simpl.
    rewrite Nat.add_0_r in Hr, Hlt.
    apply Nat.ltb_lt in Hlt as ->.
    unfold mbind, M_bind, bind. simpl. by rewrite Hr, Hok.
  - destruct fuel as [|fuel]; [lia|]. simpl.
    destruct (Nat.ltb_spec retries MAX_RETRIES) as [_|]; [|lia].
    pose proof (Hfail retries ltac:(lia)) as H0.
    unfold mbind, M_bind, bind at 1. simpl.
    assert (forall resp', (await (Sleep (backoff (S retries)));; retry_loop API_KEY transport fuel payload (S retries) resp')
              {| ui := ui w; log := log w ++ [(ui w, Fetch url payload)] |} =
            (extend w (failed_rounds (ui w) url payload retries (S d) ++ [(ui w, Fetch url payload)]), Normal (Some r))) as Hstep.
    { intros resp'. unfold mbind, M_bind, bind at 1. simpl.
      rewrite (IH fuel (S retries) resp'); simpl; try done; try lia.
      - unfold extend. simpl. f_equal. f_equal. rewrite <- !app_assoc. done.
      - intros i Hi. apply Hfail. lia.
      - rewrite <- Hr. f_equal. lia. }
    destruct (transport retries) as [|r0]; simpl in H0.
    + apply Hstep.
    + rewrite H0. apply Hstep.
Qed.

Lemma retry_loop_all_fail : forall d fuel retries response_ w,
  (forall i, retries <= i < MAX_RETRIES -> succeeded (transport i) = false) ->
  match response_ with Some r => ok r = false | None => True end ->
  retries + d = MAX_RETRIES -> d < fuel ->
  exists response', 
    retry_loop API_KEY transport fuel payload retries response_ w =
      (extend w (failed_rounds (ui w) url payload retries d), Normal response')
    /\ match response' with Some r => ok r = false | None => True end.
Proof.
  induction d as [|d IH]; intros fuel retries response_ w Hfail Hresp Hd Hfuel.
  - destruct fuel as [|fuel]; [lia|]. simpl.
    destruct (Nat.ltb_spec retries MAX_RETRIES) as [|_]; [lia|].
    exists response_. by rewrite extend_nil.
  - destruct fuel as [|fuel]; [lia|]. simpl.
    destruct (Nat.ltb_spec retries MAX_RETRIES) as [Hlt|]; [|lia].
    pose proof (Hfail retries ltac:(lia)) as H0.
    unfold mbind, M_bind, bind at 1. simpl.
    assert (forall resp', match resp' with Some r => ok r = false | None => True end ->
      exists response', (await (Sleep (backoff (S retries)));; retry_loop API_KEY transport fuel payload (S retries) resp')
              {| ui := ui w; log := log w ++ [(ui w, Fetch url payload)] |} =
            (extend w (failed_rounds (ui w) url payload retries (S d)), Normal response')
         /\ match response' with Some r => ok r = false | None => True end) as Hstep.
    { intros resp' Hresp'. unfold mbind, M_bind, bind at 1. simpl.
      destruct (IH fuel (S retries) resp' {| ui := ui w; log := (log w ++ [(ui w, Fetch url payload)]) ++ [(ui w, Sleep (backoff (S retries)))] |}) as (response' & -> & Hr'); try done; try lia.
      - intros i Hi. apply Hfail. lia.
      - exists response'. split; [|done]. unfold extend. simpl. f_equal. f_equal. rewrite <- !app_assoc. done. }
    destruct (transport retries) as [|r0]; simpl in H0.
    + by apply Hstep.
    + rewrite H0. by apply Hstep.
Qed.

End Retry.

(** quiet *)
(** Every step of [onSubmit] before the final setters is quiet. *)
Lemma fetch_count_app l1 l2 : fetch_count (l1 ++ l2) = fetch_count l1 + fetch_count l2.
Proof. unfold fetch_count. by rewrite List.filter_app, length_app. Qed.

Lemma quiet_ret {A} (a : A) : quiet 0 (mret a).
Proof. intros w. exists [], (Normal a). by rewrite extend_nil. Qed.

Lemma quiet_throw {A} e : quiet 0 (@throw A e).
Proof. intros w. exists [], (Abrupt e). by rewrite extend_nil. Qed.

Lemma quiet_lift {A} (r : result A) : quiet 0 (lift r).
Proof. destruct r; [apply (quiet_ret a)|apply quiet_throw]. Qed.

Lemma quiet_await e : quiet (if is_fetch e then 1 else 0) (await e).
Proof.
  intros w. exists [(ui w, e)], (Normal tt). repeat split; [by repeat constructor| |done].
  unfold fetch_count. simpl. by destruct (is_fetch e).
Qed.

Lemma quiet_bind {A B} n1 n2 (m : M A) (k : A -> M B) :
  quiet n1 m -> (forall a, quiet n2 (k a)) -> quiet (n1 + n2) (m ≫= k).
Proof.
  intros Hm Hk w. destruct (Hm w) as (l1 & c1 & E1 & F1 & C1 & N1).
  unfold mbind, M_bind, bind. rewrite E1.
  destruct c1 as [a|e|]; [|exists l1, (Abrupt e); repeat split; [done|lia|done]|done].
  destruct (Hk a (extend w l1)) as (l2 & c2 & E2 & F2 & C2 & N2).
  exists (l1 ++ l2), c2. rewrite E2, extend_extend. repeat split; [|rewrite fetch_count_app; lia|done].
  apply Forall_app. done.
Qed.

Lemma quiet_le {A} n n' (m : M A) : n <= n' -> quiet n m -> quiet n' m.
Proof.
  intros Hle Hm w. destruct (Hm w) as (l & c & E & F & C & N).
  exists l, c. repeat split; [done|done|lia|done].
Qed.

Lemma quiet_fileToBase64 f : quiet 0 (fileToBase64 f).
Proof.
  unfold fileToBase64. apply (quiet_bind 0 0); [apply (quiet_await (ReadFile f))|]. intros _.
  destruct (file_dataURL f); [apply (quiet_ret (A := option string))|apply quiet_throw].
Qed.

Lemma quiet_push_files files : forall parts_, quiet 0 (push_files files parts_).
Proof.
  induction files as [|f files IH]; intros parts_; simpl.
  - apply (quiet_ret (A := list part)).
  - apply (quiet_bind 0 0); [apply quiet_fileToBase64|]. intros. apply IH.
Qed.

Lemma quiet_build_payload rev data : quiet 0 (build_payload rev data).
Proof.
  unfold build_payload. apply (quiet_bind 0 0).
  - case_match; [apply quiet_throw|apply (quiet_ret tt)].
  - intros _. apply (quiet_bind 0 0); [apply quiet_push_files|]. intros. apply (quiet_ret (A := Payload)).
Qed.

Lemma quiet_retry_loop key transport payload : forall fuel retries response_,
  MAX_RETRIES - retries < fuel ->
  quiet (MAX_RETRIES - retries) (retry_loop key transport fuel payload retries response_).
Proof.
  induction fuel as [|fuel IH]; intros retries response_ Hfuel; [lia|]. simpl.
  destruct (Nat.ltb_spec retries MAX_RETRIES) as [Hlt|Hge].
  - apply (quiet_le (1 + (MAX_RETRIES - S retries))); [lia|].
    apply (quiet_bind 1); [apply (quiet_await (Fetch _ _))|]. intros _.
    assert (forall resp', quiet (MAX_RETRIES - S retries) (await (Sleep (backoff (S retries)));;
                  retry_loop key transport fuel payload (S retries) resp')) as Hstep.
    { intros. apply (quiet_bind 0); [apply (quiet_await (Sleep _))|]. intros _. apply IH. lia. }
    destruct (transport retries) as [|r]; [apply Hstep|].
    destruct (ok r); [|apply Hstep].
    eapply quiet_le; [|apply (quiet_ret (A := option response))]. lia.
  - eapply quiet_le; [|apply (quiet_ret (A := option response))]. lia.
Qed.

Lemma quiet_call_api key transport payload :
  quiet MAX_RETRIES (call_api key transport payload).
Proof.
  unfold call_api.
  apply (quiet_bind (MAX_RETRIES - 0) 0); [apply quiet_retry_loop; unfold MAX_RETRIES; lia|].
  intros [r|]; [|apply quiet_throw].
  destruct (ok r); [apply (quiet_ret (A := response))|apply quiet_throw].
Qed.

Lemma quiet_read_questions r : quiet 0 (read_questions r).
Proof.
  unfold read_questions. apply (quiet_bind 0 0); [apply (quiet_await ReadBody)|]. intros _.
  apply (quiet_bind 0 0); [apply quiet_lift|]. intros. apply quiet_lift.
Qed.

(** The request, when every file can be read. *)
Lemma fileToBase64_readable f url w :
  file_dataURL f = Some url ->
  fileToBase64 f w = (extend w [(ui w, ReadFile f)], Normal (split "," url !! 1)).
Proof. intros H. unfold fileToBase64, mbind, M_bind, bind. simpl. by rewrite H. Qed.

Lemma push_files_readable files : forall parts_ w,
  Forall readable files ->
  push_files files parts_ w =
    (extend w (map (fun f => (ui w, ReadFile f)) files), Normal (parts_ ++ map encoded files)).
Proof.
  induction files as [|f files IH]; intros parts_ w Hall; simpl.
  - by rewrite extend_nil, app_nil_r.
  - apply Forall_cons in Hall as [[url Hf] Hall].
    erewrite bind_normal; [|by apply fileToBase64_readable].
    rewrite IH by done. rewrite extend_extend. simpl. f_equal. f_equal.
    rewrite <- app_assoc. simpl. unfold encoded at 2. by rewrite Hf.
Qed.

Lemma build_payload_empty rev data w :
  files data = [] -> build_payload rev data w = (w, Abrupt (JsError (no_file_message rev))).
Proof. intros H. unfold build_payload. by rewrite H. Qed.


Lemma build_payload_readable rev data w :
  files data <> [] -> Forall readable (files data) ->
  build_payload rev data w =
    (extend w (map (fun f => (ui w, ReadFile f)) (files data)), Normal (request rev data)).
Proof.
  intros Hne Hall. unfold build_payload.
  destruct (files data) as [|f fs] eqn:E; [done|]. rewrite <- E in *.
  replace (length (files data) =? 0) with false by (rewrite E; done).
  erewrite bind_normal; [|reflexivity].
  erewrite bind_normal; [|by apply push_files_readable]. done.
Qed.

Lemma onSubmit_unfold rev key transport data w :
  onSubmit rev key transport data w =
    try_catch
    (payload ← build_payload rev data;
     response_ ← call_api key transport payload;
     questions_ ← read_questions response_;
     modify (setQuestions questions_) ;;
     modify (setLoading false))
    (fun e =>
       modify (setError (Some (failure_message rev))) ;;
       modify (setLoading false)) {| ui := cleared; log := log w |}.
Proof. reflexivity. Qed.

Lemma onSubmit_empty rev key transport data w :
  files data = [] ->
  onSubmit rev key transport data w =
    ({| ui := failed (failure_message rev); log := log w |}, Normal tt).
Proof.
  intros H. rewrite onSubmit_unfold. unfold try_catch.
  erewrite bind_abrupt; [|by apply build_payload_empty]. reflexivity.
Qed.

(** Every run of [onSubmit]. *)
Lemma onSubmit_run rev key transport data w :
  exists added final,
    onSubmit rev key transport data w = ({| ui := final; log := log w ++ added |}, Normal tt)
    /\ Forall (fun entry => fst entry = cleared) added
    /\ fetch_count added <= MAX_RETRIES
    /\ (final = failed (failure_message rev) \/ exists questions_, final = generated questions_).
Proof.
  rewrite onSubmit_unfold. set (w1 := {| ui := cleared; log := log w |}).
  assert (quiet MAX_RETRIES (payload ← build_payload rev data;
     response_ ← call_api key transport payload; read_questions response_)) as Hq.
  { apply (quiet_bind 0); [apply quiet_build_payload|]. intros payload.
    apply (quiet_bind MAX_RETRIES 0); [apply quiet_call_api|]. intros. apply quiet_read_questions. }
  destruct (Hq w1) as (added & c & E & F & C & N).
  exists added.
  unfold try_catch, mbind, M_bind, bind in *.
  destruct (build_payload rev data w1) as [w2 [payload|e|]]; simplify_eq.
  - destruct (call_api key transport payload w2) as [w3 [r|e|]]; simplify_eq.
    + destruct (read_questions r w3) as [w4 [qs|e|]]; simplify_eq.
      * eexists. split; [reflexivity|]. repeat split; try done. right. by exists qs.
      * eexists. split; [reflexivity|]. repeat split; try done. by left.
    + eexists. split; [reflexivity|]. repeat split; try done. by left.
  - eexists. split; [reflexivity|]. repeat split; try done. by left.
Qed.

(** The runs in which the transport client delivers a response, or gives
    up. *)
Lemma call_api_first_success key transport payload k r w :
  (forall i, i < k -> succeeded (transport i) = false) ->
  transport k = Responded r -> ok r = true -> k < MAX_RETRIES ->
  call_api key transport payload w =
    (extend w (failed_rounds (ui w) (API_URL +:+ key) payload 0 k
               ++ [(ui w, Fetch (API_URL +:+ key) payload)]),
     Normal r).
Proof.
  intros Hfail Hr Hok Hk. unfold call_api.
  erewrite bind_normal.
  2: { apply (retry_loop_first_success key transport payload r k); simpl; try done; try lia.
       intros i Hi. apply Hfail. lia. }
  simpl. by rewrite Hok.
Qed.

Lemma call_api_all_fail key transport payload w :
  (forall i, i < MAX_RETRIES -> succeeded (transport i) = false) ->
  call_api key transport payload w =
    (extend w (failed_rounds (ui w) (API_URL +:+ key) payload 0 MAX_RETRIES),
     Abrupt (JsError "API call failed after multiple retries.")).
Proof.
  intros Hfail. unfold call_api.
  destruct (retry_loop_all_fail key transport payload MAX_RETRIES (S MAX_RETRIES) 0 None w)
    as (response' & E & Hr'); try done; try lia.
  { intros i Hi. apply Hfail. lia. }
  erewrite bind_normal; [|exact E].
  destruct response' as [r|]; [|done]. by rewrite Hr'.
Qed.

Lemma read_questions_eq r w :
  read_questions r w =
    (extend w [(ui w, ReadBody)],
     match validated r with Ok qs => Normal qs | Throw e => Abrupt e end).
Proof.
  unfold read_questions, validated, mbind at 1 2, M_bind, bind. simpl.
  destruct (json r) as [v|e]; simpl; [|done].
  by destruct (decode_questions v).
Qed.



Lemma onSubmit_delivered rev key transport data w k r :
  files data <> [] -> Forall readable (files data) ->
  (forall i, i < k -> succeeded (transport i) = false) ->
  transport k = Responded r -> ok r = true -> k < MAX_RETRIES ->
  onSubmit rev key transport data w =
    ({| ui := match validated r with
              | Ok questions_ => generated questions_
              | Throw _ => failed (failure_message rev)
              end;
        log := log w ++ map (fun f => (cleared, ReadFile f)) (files data)
               ++ failed_rounds cleared (API_URL +:+ key) (request rev data) 0 k
               ++ [(cleared, Fetch (API_URL +:+ key) (request rev data)); (cleared, ReadBody)] |},
     Normal tt).
Proof.
  intros Hne Hall Hfail Hr Hok Hk. rewrite onSubmit_unfold. unfold try_catch.
  erewrite bind_normal; [|by apply build_payload_readable].
  erewrite bind_normal; [|by eapply call_api_first_success].
  unfold mbind at 1, M_bind, bind. rewrite read_questions_eq.
  destruct (validated r); unfold mbind, M_bind, bind, modify, extend; simpl;
    f_equal; f_equal; rewrite <- !app_assoc; f_equal; rewrite <- !app_assoc; reflexivity.
Qed.

Lemma onSubmit_exhausted rev key transport data w :
  files data <> [] -> Forall readable (files data) ->
  (forall i, i < MAX_RETRIES -> succeeded (transport i) = false) ->
  onSubmit rev key transport data w =
    ({| ui := failed (failure_message rev);
        log := log w ++ map (fun f => (cleared, ReadFile f)) (files data)
               ++ failed_rounds cleared (API_URL +:+ key) (request rev data) 0 MAX_RETRIES |},
     Normal tt).
Proof.
  intros Hne Hall Hfail. rewrite onSubmit_unfold. unfold try_catch.
  erewrite bind_normal; [|by apply build_payload_readable].
  erewrite bind_abrupt; [|by eapply call_api_all_fail].
  unfold mbind, M_bind, bind, modify, extend; simpl.
  f_equal; f_equal; rewrite <- !app_assoc; reflexivity.
Qed.


(** ** Scoring, export and counts *)

Lemma append_cons x (a b : string) : String x a +:+ b = String x (a +:+ b).
Proof. reflexivity. Qed.

Lemma append_assoc (a b c : string) : (a +:+ b) +:+ c = a +:+ (b +:+ c).
Proof. induction a as [|x a IH]; [done|]. by rewrite !append_cons, IH. Qed.

Lemma append_empty (a : string) : a +:+ "" = a.
Proof. induction a as [|x a IH]; [done|]. by rewrite append_cons, IH. Qed.

(** The scoring loop counts the correct indices. *)
Lemma get_correctAnswer q : get (Question_value q) "correctAnswer" = Ok (VStr (correctAnswer q)).
Proof. reflexivity. Qed.

Lemma strict_equal_spec (answer : option string) (c : string) :
  strict_equal answer (VStr c) = bool_decide (answer = Some c).
Proof.
  destruct answer as [x|]; simpl; [|done].
  destruct (String.eqb_spec x c) as [->|Hne].
  - by rewrite bool_decide_eq_true_2.
  - rewrite bool_decide_eq_false_2; [done|]. intros [=]. done.
Qed.


Lemma tally_question s q i c :
  tally s (Question_value q) i c =
    Ok (if bool_decide (answers s !! i = Some (correctAnswer q)) then S c else c).
Proof.
  unfold tally, is_correct. rewrite get_correctAnswer.
  unfold mbind, result_bind. by rewrite strict_equal_spec.
Qed.

Lemma each_cons {A} (f : value -> nat -> A -> result A) x items i acc :
  each f (x :: items) i acc =
    match f x i acc with Ok acc' => each f items (S i) acc' | Throw e => Throw e end.
Proof. reflexivity. Qed.

Lemma each_tally s qs : forall pre c,
  each (tally s) (map Question_value qs) (length pre) c =
    Ok (c + length (filter (correct_at (answers s) (pre ++ qs)) (seq (length pre) (length qs)))).
Proof.
  induction qs as [|q qs IH]; intros pre c.
  - simpl. f_equal. lia.
  - rewrite map_cons, each_cons, tally_question.
    specialize (IH (pre ++ [q])). rewrite length_app, <- app_assoc in IH. simpl in IH.
    rewrite Nat.add_1_r in IH. rewrite IH.
    f_equal. cbn [length seq]. rewrite filter_cons.
    assert (correct_at (answers s) (pre ++ q :: qs) (length pre)
            <-> answers s !! length pre = Some (correctAnswer q)) as Hiff.
    { unfold correct_at. by rewrite list_lookup_middle. }
    destruct (decide (correct_at _ _ _)) as [Hc|Hc].
    + rewrite bool_decide_eq_true_2 by (by apply Hiff). simpl. lia.
    + rewrite bool_decide_eq_false_2 by (by rewrite <- Hiff). done.
Qed.


Lemma calculateResults_spec s qs :
  questions s = QuestionSet_value qs ->
  calculateResults s =
    Ok (setResults (Some {| score := length (correct_indices (answers s) qs);
                            accuracy := times_100 (divide (length (correct_indices (answers s) qs)) (length qs));
                            totalQuestions := length qs |}) s).
Proof.
  intros Hq. unfold calculateResults. rewrite Hq. unfold QuestionSet_value, forEach.
  pose proof (each_tally s qs [] 0) as E. simpl in E.
  unfold mbind, result_bind. rewrite E. simpl. rewrite length_map. done.
Qed.



Lemma correct_indices_bound a qs : length (correct_indices a qs) <= length qs.
Proof. unfold correct_indices. etrans; [apply length_filter|]. by rewrite length_seq. Qed.


(** The export loop writes the blocks of [plain_text]. *)
Lemma letter_code j : j < 26 -> String_fromCharCode (65 + j) = letter j.
Proof. intros H. do 26 (destruct j as [|j]; [reflexivity|]). lia. Qed.

Lemma each_txt_option opts : forall j acc,
  j + length opts <= 26 ->
  each txt_option (map VStr opts) j acc =
    Ok (acc +:+ concat_all (imap (fun i => option_line (j + i)) opts)).
Proof.
  induction opts as [|opt opts IH]; intros j acc Hj.
  - simpl. by rewrite append_empty.
  - simpl in Hj. rewrite map_cons, each_cons. unfold txt_option at 1.
    rewrite IH by lia. f_equal. rewrite imap_cons. simpl concat_all.
    rewrite letter_code by lia. rewrite Nat.add_0_r. unfold option_line at 2.
    rewrite !append_assoc.
    replace (imap ((fun i => option_line (j + i)) ∘ S) opts)
      with (imap (fun i => option_line (S j + i)) opts); [done|].
    apply imap_ext. intros. simpl. f_equal. lia.
Qed.

Lemma txt_question_block q i acc :
  length (options q) <= 26 ->
  txt_question (Question_value q) i acc = Ok (acc +:+ question_block i q).
Proof.
  intros Hq. unfold txt_question.
  change (get (Question_value q) "questionText") with (Ok (VStr (questionText q))).
  change (get (Question_value q) "options") with (Ok (VArr (map VStr (options q)))).
  change (get (Question_value q) "correctAnswer") with (Ok (VStr (correctAnswer q))).
  change (get (Question_value q) "solution") with (Ok (VStr (solution q))).
  unfold mbind, result_bind, forEach. rewrite each_txt_option by (simpl; lia).
  unfold question_block. simpl ToString. rewrite Nat.add_1_r.
  rewrite !append_assoc. do 2 f_equal.
Qed.

Lemma each_txt_question qs : forall i acc,
  Forall (fun q => length (options q) <= 26) qs ->
  each txt_question (map Question_value qs) i acc =
    Ok (acc +:+ concat_all (imap (fun k => question_block (i + k)) qs)).
Proof.
  induction qs as [|q qs IH]; intros i acc Hall.
  - simpl. by rewrite append_empty.
  - apply Forall_cons in Hall as [Hq Hall].
    rewrite map_cons, each_cons, txt_question_block by done.
    rewrite IH by done. f_equal. rewrite imap_cons. simpl concat_all.
    rewrite Nat.add_0_r, append_assoc.
    replace (imap ((fun k => question_block (i + k)) ∘ S) qs)
      with (imap (fun k => question_block (S i + k)) qs); [done|].
    apply imap_ext. intros. simpl. f_equal. lia.
Qed.

Lemma handleExport_txt format s qs :
  format <> "csv" -> questions s = QuestionSet_value qs ->
  Forall (fun q => length (options q) <= 26) qs ->
  handleExport format s =
    Ok (Some {| content := plain_text qs;
                filename := "neet_questions_and_solutions.txt";
                mime := "text/plain;charset=utf-8" |}).
Proof.
  intros Hf Hq Hall. unfold handleExport. rewrite Hq. simpl truthy. simpl negb.
  destruct (String.eqb_spec format "csv") as [->|_]; [done|].
  unfold QuestionSet_value, forEach. rewrite each_txt_question by done.
  reflexivity.
Qed.

(** A count other than zero is truthy, as a number and as a text. *)
Lemma pretty_N_go_leading (x : N) : forall s,
  (0 < x)%N -> leading_digit (pretty_N_go x s) = true.
Proof.
  induction (N.lt_wf_0 x) as [x _ IH]; intros s Hx.
  rewrite pretty_N_go_step by done.
  destruct (N.eq_dec (x / 10)%N 0%N) as [E|E%N.neq_0_lt_0].
  - rewrite E, pretty_N_go_0.
    apply N.div_small_iff in E; [|done]. rewrite N.mod_small by done.
    assert (x = 1 ∨ x = 2 ∨ x = 3 ∨ x = 4 ∨ x = 5 ∨ x = 6 ∨ x = 7 ∨ x = 8 ∨ x = 9)%N
      as Hcases by lia.
    repeat (destruct Hcases as [->|Hcases]; [reflexivity|]). by subst.
  - apply IH; [|done]. by apply N.div_lt.
Qed.

Lemma zero_literal_leading t : leading_digit t = true -> zero_literal t = false.
Proof.
  destruct t as [|d t]; [done|]. simpl. intros H.
  apply andb_true_iff in H as [Hd Hz]. rewrite Hd, Hz. simpl.
  assert (Ascii.eqb d "e" || Ascii.eqb d "E" = false) as ->; [|done].
  apply orb_false_iff. split; apply Ascii.eqb_neq; intros ->; done.
Qed.

Lemma pretty_pos_leading (p : positive) : leading_digit (pretty p) = true.
Proof.
  unfold pretty, pretty_positive, pretty, pretty_N.
  rewrite decide_False by done. by apply pretty_N_go_leading.
Qed.

Lemma truthy_count (n : Z) : n <> 0%Z -> truthy (VNum (pretty n)) = true.
Proof.
  intros Hn. simpl. apply negb_true_iff.
  destruct n as [|p|p]; [done| |].
  - apply zero_literal_leading, pretty_pos_leading.
  - unfold pretty, pretty_Z.
    change (zero_literal (pretty p) = false).
    apply zero_literal_leading, pretty_pos_leading.
Qed.

Lemma truthy_count_text (n : Z) : truthy (VStr (pretty n)) = true.
Proof.
  simpl. apply negb_true_iff. apply String.eqb_neq.
  destruct n as [|p|p]; [done| |done].
  pose proof (pretty_pos_leading p) as H. unfold pretty, pretty_Z.
  by destruct (pretty p).
Qed.

Lemma instruction_truthy data :
  truthy (numQuestions data) = true ->
  instruction with_count data =
    instruction_head +:+ ToString (numQuestions data) +:+ instruction_tail.
Proof. intros H. unfold instruction, with_count, or_else. by rewrite H. Qed.

Lemma instruction_falsy data :
  truthy (numQuestions data) = false ->
  instruction with_count data = instruction_head +:+ "10" +:+ instruction_tail.
Proof. intros H. unfold instruction, with_count, or_else. by rewrite H. Qed.

(** ** The validator on the specification's sample *)

Example well_formed_reply_parsed :
  validated (reply q1_text) = Ok (QuestionSet_value [q1]).
Proof. vm_compute. reflexivity. Qed.

Example not_json_rejected :
  fragment_undecodable (reply "Here are your questions") = true.
Proof. vm_compute. reflexivity. Qed.

(** ** The quiz on the specification's samples *)

Example last_answer_wins :
  answers (handleAnswerSelect 0 "B" (handleAnswerSelect 0 "A" (answering abc ∅))) !! 0
  = Some "B".
Proof. reflexivity. Qed.

Example csv_doubles_quotes :
  double_quotes (json_text "He said 'hi'") = json_text "He said ''hi''".
Proof. reflexivity. Qed.

Example csv_export :
  handleExport "csv"
    (answering [ {| questionText := json_text "He said 'hi'"; options := ["a"; "b"];
                    correctAnswer := "A"; solution := "S" |} ] ∅) =
    Ok (Some {| content := json_text "'Question','Correct Answer','Solution'" +:+ nl
                           +:+ json_text "'He said ''hi''','A','S'" +:+ nl;
                filename := "neet_questions_and_solutions.csv";
                mime := "text/csv;charset=utf-8;" |}).
Proof. vm_compute. reflexivity. Qed.

Example nothing_to_export : handleExport "txt" initial = Ok None.
Proof. reflexivity. Qed.

(** What the component renders in the state a failed submit leaves. *)
Example failed_state_rendering :
  let s := failed (failure_message with_count) in
  shows_spinner s = false /\ shows_error s = true
  /\ shows_quiz s = false /\ shows_results s = false.
Proof. repeat split. Qed.

(** ** The claims *)

(** C1. When the first two calls of [fetch] fail (the promise rejects or the
    status is not ok) and the third succeeds, the transport client returns
    the third response and stops: it has sent three requests, waited 200 ms
    after the first and 400 ms after the second, and nothing follows the
    third request.  Whatever the transport does, it sends at most
    [MAX_RETRIES] = 5 requests and leaves the state alone. *)
Theorem third_attempt_returned key transport payload w r :
  succeeded (transport 0) = false ->
  succeeded (transport 1) = false ->
  transport 2 = Responded r ->
  ok r = true ->
  call_api key transport payload w =
    (extend w [(ui w, Fetch (API_URL +:+ key) payload); (ui w, Sleep 200);
               (ui w, Fetch (API_URL +:+ key) payload); (ui w, Sleep 400);
               (ui w, Fetch (API_URL +:+ key) payload)],
     Normal r)
  /\ quiet MAX_RETRIES (call_api key transport payload).
Proof.
  intros H0 H1 H2 Hok. split; [|apply quiet_call_api].
  rewrite (call_api_first_success key transport payload 2 r w); try done.
  - intros i Hi. destruct i as [|[|i]]; [done|done|lia].
  - unfold MAX_RETRIES. lia.
Qed.

Lemma third_attempt_returned_witness :
  call_api "" (scripted [NetworkError; Responded unavailable; Responded (reply q1_text)])
    (request with_count (two_files (VStr "3"))) no_world =
    (extend no_world
       [(initial, Fetch (API_URL +:+ "") (request with_count (two_files (VStr "3"))));
        (initial, Sleep 200);
        (initial, Fetch (API_URL +:+ "") (request with_count (two_files (VStr "3"))));
        (initial, Sleep 400);
        (initial, Fetch (API_URL +:+ "") (request with_count (two_files (VStr "3"))))],
     Normal (reply q1_text))
  /\ quiet MAX_RETRIES
       (call_api "" (scripted [NetworkError; Responded unavailable; Responded (reply q1_text)])
          (request with_count (two_files (VStr "3")))).
Proof.
  apply (third_attempt_returned ""
           (scripted [NetworkError; Responded unavailable; Responded (reply q1_text)])
           (request with_count (two_files (VStr "3"))) no_world (reply q1_text));
    reflexivity.
Defined.

(** C2. When every call of [fetch] fails, the transport client sends exactly
    five requests, waiting 200, 400, 800, 1600 and 3200 ms after them, and
    then throws [Error("API call failed after multiple retries.")]: it
    returns no response. *)
Theorem all_attempts_fail key transport payload w :
  (forall i, succeeded (transport i) = false) ->
  call_api key transport payload w =
    (extend w [(ui w, Fetch (API_URL +:+ key) payload); (ui w, Sleep 200);
               (ui w, Fetch (API_URL +:+ key) payload); (ui w, Sleep 400);
               (ui w, Fetch (API_URL +:+ key) payload); (ui w, Sleep 800);
               (ui w, Fetch (API_URL +:+ key) payload); (ui w, Sleep 1600);
               (ui w, Fetch (API_URL +:+ key) payload); (ui w, Sleep 3200)],
     Abrupt (JsError "API call failed after multiple retries."))
  /\ fetch_count (log (fst (call_api key transport payload w))) = fetch_count (log w) + 5.
Proof.
  intros Hfail.
  pose proof (call_api_all_fail key transport payload w (fun i _ => Hfail i)) as E.
  split; [exact E|]. rewrite E. unfold extend. simpl. by rewrite fetch_count_app.
Qed.

Lemma all_attempts_fail_witness :
  call_api "" (scripted []) (request with_count (two_files (VStr "3"))) no_world =
    (extend no_world
       [(initial, Fetch (API_URL +:+ "") (request with_count (two_files (VStr "3"))));
        (initial, Sleep 200);
        (initial, Fetch (API_URL +:+ "") (request with_count (two_files (VStr "3"))));
        (initial, Sleep 400);
        (initial, Fetch (API_URL +:+ "") (request with_count (two_files (VStr "3"))));
        (initial, Sleep 800);
        (initial, Fetch (API_URL +:+ "") (request with_count (two_files (VStr "3"))));
        (initial, Sleep 1600);
        (initial, Fetch (API_URL +:+ "") (request with_count (two_files (VStr "3"))));
        (initial, Sleep 3200)],
     Abrupt (JsError "API call failed after multiple retries."))
  /\ fetch_count (log (fst (call_api "" (scripted [])
                              (request with_count (two_files (VStr "3"))) no_world)))
     = fetch_count (log no_world) + 5.
Proof.
  apply (all_attempts_fail "" (scripted []) (request with_count (two_files (VStr "3"))) no_world).
  intros i. reflexivity.
Defined.



(** The example of C3: correct answers A, B, C against the answers A, X, C
    score 2 of 3, which is 200/3 per cent and is shown as 66.67. *)
Example scoring_a_x_c :
  calculateResults (answering abc a_x_c) =
    Ok (setResults (Some {| score := 2; accuracy := Finite (200 # 3); totalQuestions := 3 |})
          (answering abc a_x_c))
  /\ toFixed_2 (Finite (200 # 3)) = "66.67".
Proof. split; vm_compute; reflexivity. Qed.




(** C5. A submit without files ends in the error state without the handler
    ever suspending: nothing is added to the log, so no file is read and no
    request is sent, and the only state the component is rendered in is the
    error state, in which the spinner is not shown (the [loading] flag that
    the first statement sets is cleared again before the handler returns). *)
Theorem empty_submit_fails_at_once rev key transport data w :
  files data = [] ->
  onSubmit rev key transport data w =
    ({| ui := failed (failure_message rev); log := log w |}, Normal tt)
  /\ rendered w (fst (onSubmit rev key transport data w)) = [failed (failure_message rev)]
  /\ shows_spinner (failed (failure_message rev)) = false.
Proof.
  intros H. rewrite (onSubmit_empty rev key transport data w H).
  repeat split. unfold rendered. simpl. by rewrite drop_all.
Qed.

Lemma empty_submit_fails_at_once_witness :
  onSubmit with_count "" (scripted [Responded (reply q1_text)])
    {| files := []; numQuestions := VStr "5" |} no_world =
    ({| ui := failed (failure_message with_count); log := log no_world |}, Normal tt)
  /\ rendered no_world
       (fst (onSubmit with_count "" (scripted [Responded (reply q1_text)])
               {| files := []; numQuestions := VStr "5" |} no_world))
     = [failed (failure_message with_count)]
  /\ shows_spinner (failed (failure_message with_count)) = false.
Proof.
  apply (empty_submit_fails_at_once with_count "" (scripted [Responded (reply q1_text)])
           {| files := []; numQuestions := VStr "5" |} no_world).
  reflexivity.
Defined.

(** C6, as the code has it.  The instruction shows 10 when the count is
    falsy: omitted ([undefined], [null], the empty text of a cleared field)
    or the number 0.  Any other count, a negative number included, is shown
    as given. *)
Theorem count_defaults_when_falsy data shown :
  count_shown (numQuestions data) shown ->
  instruction with_count data = instruction_head +:+ shown +:+ instruction_tail.
Proof.
  intros H. remember (numQuestions data) as v eqn:E.
  destruct H as [| | | |n Hn|t Ht].
  1-4: apply instruction_falsy; by rewrite <- E.
  - rewrite instruction_truthy; rewrite <- E; [done|by apply truthy_count].
  - rewrite instruction_truthy; rewrite <- E; [done|].
    simpl. apply negb_true_iff. by apply String.eqb_neq.
Qed.

Lemma count_defaults_when_falsy_witness :
  instruction with_count (two_files (VNum (pretty (-5)%Z))) =
    instruction_head +:+ pretty (-5)%Z +:+ instruction_tail.
Proof.
  apply (count_defaults_when_falsy (two_files (VNum (pretty (-5)%Z))) (pretty (-5)%Z)).
  apply count_number. discriminate.
Defined.

(** C6 as stated fails: for the count -5 the instruction asks for -5
    questions, not for 10. *)
Lemma negative_count_is_kept :
  instruction with_count (two_files (VNum "-5")) =
    instruction_head +:+ "-5" +:+ instruction_tail
  /\ instruction with_count (two_files (VNum "-5")) <>
     instruction_head +:+ "10" +:+ instruction_tail.
Proof.
  split; [reflexivity|]. apply String.eqb_neq. vm_compute. reflexivity.
Qed.

(** C7. For a non-empty list of readable files, the request that is built
    holds the instruction followed by one attachment per file, in the order
    of the files, and the files are read in that order; in the revision
    with a question count the instruction holds the decimal numeral of the
    count [n >= 1] (given as a number, or as the text the form field
    delivers). *)
Theorem request_keeps_order_and_count rev data w (n : Z) :
  files data <> [] -> Forall readable (files data) -> (1 <= n)%Z ->
  numQuestions data = VNum (pretty n) \/ numQuestions data = VStr (pretty n) ->
  exists payload,
    build_payload rev data w =
      (extend w (map (fun f => (ui w, ReadFile f)) (files data)), Normal payload)
    /\ parts payload = Text (instruction rev data) :: map encoded (files data)
    /\ instruction with_count data = instruction_head +:+ pretty n +:+ instruction_tail.
Proof.
  intros Hne Hall Hn Hcount. exists (request rev data).
  split; [by apply build_payload_readable|]. split; [reflexivity|].
  destruct Hcount as [E|E].
  - rewrite instruction_truthy; rewrite E; [done|]. apply truthy_count. lia.
  - rewrite instruction_truthy; rewrite E; [done|]. apply truthy_count_text.
Qed.

Lemma request_keeps_order_and_count_witness :
  exists payload,
    build_payload with_count (two_files (VStr (pretty 7%Z))) no_world =
      (extend no_world
         (map (fun f => (ui no_world, ReadFile f)) (files (two_files (VStr (pretty 7%Z))))),
       Normal payload)
    /\ parts payload =
         Text (instruction with_count (two_files (VStr (pretty 7%Z))))
         :: map encoded (files (two_files (VStr (pretty 7%Z))))
    /\ instruction with_count (two_files (VStr (pretty 7%Z))) =
         instruction_head +:+ pretty 7%Z +:+ instruction_tail.
Proof.
  apply (request_keeps_order_and_count with_count (two_files (VStr (pretty 7%Z))) no_world 7%Z).
  - discriminate.
  - repeat constructor; by eexists.
  - lia.
  - right. reflexivity.
Defined.

(** The attachments of the sample submission, in the order page, notes. *)
Example sample_attachments :
  map encoded (files (two_files (VStr "7"))) =
    [InlineData "image/png" (Some "iVBORw0KGgo=");
     InlineData "application/pdf" (Some "JVBERi0xLjQ=")].
Proof. reflexivity. Qed.

(** C8. The plain-text export (any format but csv) of a question set whose
    questions have at most 26 options is the text of the specification:
    for each question its 1-based index and text, every option after its
    letter, the correct answer and the solution, each block closed by a
    blank line. *)
Theorem plain_text_export format s qs :
  format <> "csv" ->
  questions s = QuestionSet_value qs ->
  Forall (fun q => length (options q) <= 26) qs ->
  handleExport format s =
    Ok (Some {| content := plain_text qs;
                filename := "neet_questions_and_solutions.txt";
                mime := "text/plain;charset=utf-8" |}).
Proof. apply handleExport_txt. Qed.

Lemma plain_text_export_witness :
  handleExport "txt" (answering abc a_x_c) =
    Ok (Some {| content := plain_text abc;
                filename := "neet_questions_and_solutions.txt";
                mime := "text/plain;charset=utf-8" |}).
Proof.
  apply (plain_text_export "txt" (answering abc a_x_c) abc).
  - discriminate.
  - reflexivity.
  - repeat constructor; simpl; lia.
Defined.

(** What the export of one question looks like. *)
Example plain_text_q1 :
  plain_text [q1] =
    "Question 1: Q1" +:+ nl +:+
    "  A. a" +:+ nl +:+ "  B. b" +:+ nl +:+ "  C. c" +:+ nl +:+ "  D. d" +:+ nl +:+
    "Correct Answer: A" +:+ nl +:+
    "Solution: S" +:+ nl +:+ nl.
Proof. vm_compute. reflexivity. Qed.

(** src/App.jsx exports one line per question instead: text, correct answer
    and solution joined by colons, the lines separated by a blank line. *)
Example colon_export_q1 :
  handleExport_images_only (answering [q1; q1] ∅) =
    Ok (Some {| content := "Q1:A:S" +:+ nl +:+ nl +:+ "Q1:A:S";
                filename := "neet_questions_and_solutions.txt";
                mime := "text/plain;charset=utf-8" |}).
Proof. vm_compute. reflexivity. Qed.



(** Only for a record without [correctAnswer], which the question type
    excludes and the validator lets through (C4), is a missing answer
    counted: [undefined === undefined]. *)
Remark unanswered_bare_question_counted :
  calculateResults (generated (VArr [bare_question])) =
    Ok (setResults (Some {| score := 1; accuracy := Finite (100 # 1); totalQuestions := 1 |})
          (generated (VArr [bare_question]))).
Proof. vm_compute. reflexivity. Qed.

(** C10. Whatever the state before, [onSubmit] completes, every operation
    it awaits (file read, request, wait, body read) finds the state cleared
    (loading, no questions, no answers, no results, no error), it sends at
    most five requests, and it ends either with the error set and nothing
    else, or with the generated questions and nothing else: nothing of the
    previous session is left. *)
Theorem submit_clears_previous_session rev key transport data w :
  exists added final,
    onSubmit rev key transport data w = ({| ui := final; log := log w ++ added |}, Normal tt)
    /\ Forall (fun entry => fst entry = cleared) added
    /\ fetch_count added <= MAX_RETRIES
    /\ (final = failed (failure_message rev) \/ exists questions_, final = generated questions_).
Proof. apply onSubmit_run. Qed.

(** A scored session is discarded by a submit that fails. *)
Example scored_then_failed :
  ui (fst (onSubmit with_count "" (scripted []) (two_files (VStr "3"))
             {| ui := setResults
                        (Some {| score := 2; accuracy := Finite (200 # 3);
                                 totalQuestions := 3 |})
                        (answering abc a_x_c);
                log := [] |}))
  = failed (failure_message with_count).
Proof. reflexivity. Qed.


(** * Further properties *)

(** ** The transport client on every transport *)

Lemma first_success_or_none (transport : nat -> attempt) n :
  (exists k r, k < n /\ (forall i, i < k -> succeeded (transport i) = false)
               /\ transport k = Responded r /\ ok r = true)
  \/ (forall i, i < n -> succeeded (transport i) = false).
Proof.
  induction n as [|n [(k & r & Hk & Hfail & Hr & Hok)|Hnone]].
  - right. intros i Hi. lia.
  - left. exists k, r. repeat split; [lia|done..].
  - destruct (succeeded (transport n)) eqn:E.
    + left. destruct (transport n) as [|r] eqn:Hr; [done|].
      exists n, r. repeat split; [lia|done..].
    + right. intros i Hi. destruct (decide (i = n)) as [->|]; [done|]. apply Hnone. lia.
Qed.

Lemma call_api_outcome key transport payload w :
  (exists k r,
     k < MAX_RETRIES
     /\ (forall i, i < k -> succeeded (transport i) = false)
     /\ transport k = Responded r /\ ok r = true
     /\ call_api key transport payload w =
          (extend w (failed_rounds (ui w) (API_URL +:+ key) payload 0 k
                     ++ [(ui w, Fetch (API_URL +:+ key) payload)]),
           Normal r))
  \/ ((forall i, i < MAX_RETRIES -> succeeded (transport i) = false)
      /\ call_api key transport payload w =
           (extend w (failed_rounds (ui w) (API_URL +:+ key) payload 0 MAX_RETRIES),
            Abrupt (JsError "API call failed after multiple retries."))).
Proof.
  destruct (first_success_or_none transport MAX_RETRIES)
    as [(k & r & Hk & Hfail & Hr & Hok)|Hnone].
  - left. exists k, r. repeat split; try done. by apply call_api_first_success.
  - right. split; [done|]. by apply call_api_all_fail.
Qed.

(** X1. Whatever the transport does, the transport client does one of two
    things.  If one of the first five calls succeeds, it returns the response
    of the first such call, number [k], after [k] failed rounds (a request,
    then a wait of [2^i * 100] ms after the [i]-th failure) and one more
    request.  If none does, it throws after five failed rounds. *)
Theorem transport_client_outcome key transport payload w :
  (exists k r,
     k < MAX_RETRIES
     /\ (forall i, i < k -> succeeded (transport i) = false)
     /\ transport k = Responded r /\ ok r = true
     /\ call_api key transport payload w =
          (extend w (failed_rounds (ui w) (API_URL +:+ key) payload 0 k
                     ++ [(ui w, Fetch (API_URL +:+ key) payload)]),
           Normal r))
  \/ ((forall i, i < MAX_RETRIES -> succeeded (transport i) = false)
      /\ call_api key transport payload w =
           (extend w (failed_rounds (ui w) (API_URL +:+ key) payload 0 MAX_RETRIES),
            Abrupt (JsError "API call failed after multiple retries."))).
Proof. apply call_api_outcome. Qed.

(** X2. A response the transport client returns is an ok response, and it is
    the response of one of the first five calls. *)
Theorem returned_response_is_ok key transport payload w w' r :
  call_api key transport payload w = (w', Normal r) ->
  ok r = true /\ exists k, k < MAX_RETRIES /\ transport k = Responded r.
Proof.
  intros Hrun.
  destruct (call_api_outcome key transport payload w)
    as [(k & r' & Hk & _ & Hr & Hok & E)|[_ E]]; rewrite E in Hrun; [|done].
  injection Hrun as _ <-. split; [done|]. by exists k.
Qed.

Lemma returned_response_is_ok_witness :
  ok (reply q1_text) = true
  /\ exists k, k < MAX_RETRIES
       /\ scripted [NetworkError; Responded unavailable; Responded (reply q1_text)] k
          = Responded (reply q1_text).
Proof.
  apply (returned_response_is_ok ""
           (scripted [NetworkError; Responded unavailable; Responded (reply q1_text)])
           (request with_count (two_files (VStr "3"))) no_world
           (fst (call_api ""
                   (scripted [NetworkError; Responded unavailable; Responded (reply q1_text)])
                   (request with_count (two_files (VStr "3"))) no_world))
           (reply q1_text)).
  reflexivity.
Defined.

(** ** Reading the files *)

Lemma split_no_comma s : has_comma s = false -> split "," s = [s].
Proof.
  induction s as [|a s IH]; [done|]. simpl. intros H.
  apply orb_false_iff in H as [Ha Hs]. rewrite Ha, IH by done. done.
Qed.

Lemma split_at_comma prefix rest :
  has_comma prefix = false ->
  split "," (prefix +:+ "," +:+ rest) = prefix :: split "," rest.
Proof.
  induction prefix as [|a p IH]; intros H.
  - reflexivity.
  - simpl in H. apply orb_false_iff in H as [Ha Hp].
    rewrite append_cons. simpl. rewrite Ha, IH by done. done.
Qed.

Lemma split_pieces s : Forall (fun piece => has_comma piece = false) (split "," s).
Proof.
  induction s as [|a s IH]; simpl; [by repeat constructor|].
  destruct (Ascii.eqb a ",") eqn:Ha; [by constructor|].
  destruct (split "," s) as [|piece pieces]; [by repeat constructor; simpl; rewrite Ha|].
  apply Forall_cons in IH as [Hp Hps]. constructor; [|done]. simpl. by rewrite Ha, Hp.
Qed.

Lemma split_second s : has_comma s = (bool_decide (is_Some (split "," s !! 1))).
Proof.
  induction s as [|a s IH]; [done|]. simpl.
  destruct (Ascii.eqb a ",") eqn:Ha; simpl.
  - destruct s; simpl; [done|]. by repeat case_match.
  - rewrite IH. by destruct (split "," s) as [|piece pieces].
Qed.

(** X3. For a file whose data URL is a header without comma, a comma and a
    payload without comma (base64 has none), [fileToBase64] suspends once to
    read the file and resolves with the payload. *)
Theorem fileToBase64_payload f header payload w :
  file_dataURL f = Some (header +:+ "," +:+ payload) ->
  has_comma header = false -> has_comma payload = false ->
  fileToBase64 f w = (extend w [(ui w, ReadFile f)], Normal (Some payload)).
Proof.
  intros Hf Hh Hp. rewrite (fileToBase64_readable f _ w Hf).
  by rewrite split_at_comma, split_no_comma.
Qed.

Lemma fileToBase64_payload_witness :
  fileToBase64 page no_world
  = (extend no_world [(ui no_world, ReadFile page)], Normal (Some "iVBORw0KGgo=")).
Proof.
  apply (fileToBase64_payload page "data:image/png;base64" "iVBORw0KGgo=" no_world);
    reflexivity.
Defined.

(** X4. For any data URL the reader delivers, [fileToBase64] resolves; what
    it resolves with is [undefined] exactly when the URL has no comma, and
    otherwise a string without comma (the piece between the first and the
    second comma). *)
Theorem fileToBase64_result f url w :
  file_dataURL f = Some url ->
  exists data_,
    fileToBase64 f w = (extend w [(ui w, ReadFile f)], Normal data_)
    /\ (data_ = None <-> has_comma url = false)
    /\ (forall piece, data_ = Some piece -> has_comma piece = false).
Proof.
  intros Hf. exists (split "," url !! 1). split; [by apply fileToBase64_readable|]. split.
  - rewrite split_second. rewrite bool_decide_eq_false, <- eq_None_not_Some. done.
  - intros piece Hp. pose proof (split_pieces url) as Hall.
    by eapply (Forall_lookup_1 _ _ _ _ Hall Hp).
Qed.

Lemma fileToBase64_result_witness :
  exists data_,
    fileToBase64 notes no_world = (extend no_world [(ui no_world, ReadFile notes)], Normal data_)
    /\ (data_ = None <-> has_comma "data:application/pdf;base64,JVBERi0xLjQ=" = false)
    /\ (forall piece, data_ = Some piece -> has_comma piece = false).
Proof. apply (fileToBase64_result notes _ no_world). reflexivity. Defined.

Lemma fileToBase64_unreadable f w :
  file_dataURL f = None ->
  fileToBase64 f w = (extend w [(ui w, ReadFile f)], Abrupt Rejected).
Proof. intros H. unfold fileToBase64, mbind, M_bind, bind. simpl. by rewrite H. Qed.

Lemma push_files_unreadable pre bad post : forall parts_ w,
  Forall readable pre -> file_dataURL bad = None ->
  push_files (pre ++ bad :: post) parts_ w =
    (extend w (map (fun f => (ui w, ReadFile f)) (pre ++ [bad])), Abrupt Rejected).
Proof.
  induction pre as [|f pre IH]; intros parts_ w Hall Hbad.
  - simpl. erewrite bind_abrupt; [done|by apply fileToBase64_unreadable].
  - apply Forall_cons in Hall as [[url Hf] Hall]. simpl.
    erewrite bind_normal; [|by apply fileToBase64_readable].
    rewrite IH by done. by rewrite extend_extend.
Qed.

Lemma onSubmit_unreadable rev key transport data w pre bad post :
  files data = pre ++ bad :: post ->
  Forall readable pre -> file_dataURL bad = None ->
  onSubmit rev key transport data w =
    ({| ui := failed (failure_message rev);
        log := log w ++ map (fun f => (cleared, ReadFile f)) (pre ++ [bad]) |},
     Normal tt).
Proof.
  intros Hfiles Hall Hbad.
  assert (build_payload rev data {| ui := cleared; log := log w |} =
          (extend {| ui := cleared; log := log w |}
             (map (fun f => (cleared, ReadFile f)) (pre ++ [bad])), Abrupt Rejected)) as Hbuild.
  { unfold build_payload. rewrite Hfiles.
    replace (length (pre ++ bad :: post) =? 0) with false
      by (symmetry; apply Nat.eqb_neq; rewrite length_app; simpl; lia).
    erewrite bind_normal; [|reflexivity].
    erewrite bind_abrupt; [reflexivity|]. by apply push_files_unreadable. }
  rewrite onSubmit_unfold. unfold try_catch.
  erewrite bind_abrupt; [|exact Hbuild]. reflexivity.
Qed.

(** X5. When a file cannot be read, [onSubmit] ends in the error state: the
    files before it and the file itself have been read, in order, the files
    after it have not, and no request has been sent. *)
Theorem unreadable_file_stops_submit rev key transport data w pre bad post :
  files data = pre ++ bad :: post ->
  Forall readable pre -> file_dataURL bad = None ->
  onSubmit rev key transport data w =
    ({| ui := failed (failure_message rev);
        log := log w ++ map (fun f => (cleared, ReadFile f)) (pre ++ [bad]) |},
     Normal tt)
  /\ fetch_count (map (fun f => (cleared, ReadFile f)) (pre ++ [bad])) = 0.
Proof.
  intros Hfiles Hall Hbad. split; [by apply (onSubmit_unreadable _ _ _ _ _ pre bad post)|].
  induction (pre ++ [bad]) as [|f l IH]; [done|]. exact IH.
Qed.

Lemma unreadable_file_stops_submit_witness :
  onSubmit with_count "" (scripted [Responded (reply q1_text)])
    {| files := [page; {| file_name := "gone.txt"; file_type := "text/plain";
                          file_dataURL := None |}; notes];
       numQuestions := VStr "5" |} no_world =
    ({| ui := failed (failure_message with_count);
        log := log no_world
               ++ map (fun f => (cleared, ReadFile f))
                    ([page] ++ [{| file_name := "gone.txt"; file_type := "text/plain";
                                   file_dataURL := None |}]) |},
     Normal tt)
  /\ fetch_count (map (fun f => (cleared, ReadFile f))
                    ([page] ++ [{| file_name := "gone.txt"; file_type := "text/plain";
                                   file_dataURL := None |}])) = 0.
Proof.
  apply (unreadable_file_stops_submit with_count "" (scripted [Responded (reply q1_text)])
           {| files := [page; {| file_name := "gone.txt"; file_type := "text/plain";
                                 file_dataURL := None |}; notes];
              numQuestions := VStr "5" |} no_world
           [page] {| file_name := "gone.txt"; file_type := "text/plain"; file_dataURL := None |}
           [notes]).
  - reflexivity.
  - repeat constructor. by eexists.
  - reflexivity.
Defined.
(** ** The shape of a submit *)

Lemma first_unreadable (l : list File) :
  Forall readable l
  \/ exists pre bad post, l = pre ++ bad :: post /\ Forall readable pre /\ file_dataURL bad = None.
Proof.
  induction l as [|f l [Hall|(pre & bad & post & -> & Hpre & Hbad)]].
  - by left.
  - destruct (file_dataURL f) as [url|] eqn:Hf.
    + left. constructor; [by exists url|done].
    + right. by exists [], f, l.
  - destruct (file_dataURL f) as [url|] eqn:Hf.
    + right. exists (f :: pre), bad, post. repeat split; [|done]. constructor; [by exists url|done].
    + right. by exists [], f, (pre ++ bad :: post).
Qed.

Lemma failed_rounds_are_rounds st url body : forall k retries,
  Forall (fun entry => is_round url body (snd entry)) (failed_rounds st url body retries k).
Proof.
  induction k as [|k IH]; intros retries; simpl; [done|].
  constructor; [by left|]. constructor; [right; by eexists|]. apply IH.
Qed.

(** X6. The order of a submit, whatever the files and the transport do: the
    files are read first, in their order, up to the first that fails; a
    request is sent only after every file has been read; every request of
    the run goes to the same URL with the same body, the request built from
    the form data; and the body of a response is read last, if at all. *)
Theorem submit_order rev key transport data w :
  exists read net tail,
    log (fst (onSubmit rev key transport data w)) =
      log w ++ map (fun f => (cleared, ReadFile f)) read ++ net ++ tail
    /\ read `prefix_of` files data
    /\ (net <> [] -> read = files data)
    /\ Forall (fun entry => is_round (API_URL +:+ key) (request rev data) (snd entry)) net
    /\ (tail = [] \/ net <> [] /\ tail = [(cleared, ReadBody)]).
Proof.
  destruct (decide (files data = [])) as [Hfiles|Hne].
  { exists [], [], []. rewrite (onSubmit_empty rev key transport data w Hfiles).
    split_and!; [by rewrite app_nil_r|by apply prefix_nil|done|done|by left]. }
  destruct (first_unreadable (files data)) as [Hall|(pre & bad & post & Hfiles & Hpre & Hbad)].
  - destruct (first_success_or_none transport MAX_RETRIES)
      as [(k & r & Hk & Hfail & Hr & Hok)|Hnone].
    + exists (files data),
        (failed_rounds cleared (API_URL +:+ key) (request rev data) 0 k
         ++ [(cleared, Fetch (API_URL +:+ key) (request rev data))]),
        [(cleared, ReadBody)].
      rewrite (onSubmit_delivered rev key transport data w k r) by done.
      split_and!.
      * simpl. by rewrite <- !app_assoc.
      * done.
      * done.
      * apply Forall_app. split; [apply failed_rounds_are_rounds|].
        constructor; [by left|done].
      * right. split; [|done]. by destruct (failed_rounds _ _ _ _ _).
    + exists (files data),
        (failed_rounds cleared (API_URL +:+ key) (request rev data) 0 MAX_RETRIES), [].
      rewrite (onSubmit_exhausted rev key transport data w) by done.
      split_and!; [by rewrite app_nil_r|done|done|apply failed_rounds_are_rounds|by left].
  - exists (pre ++ [bad]), [], [].
    rewrite (onSubmit_unreadable rev key transport data w pre bad post) by done.
    split_and!; [by rewrite app_nil_r| |done|done|by left].
    rewrite Hfiles. exists post. by rewrite <- app_assoc.
Qed.



(** A reply without [questions] leaves the page empty: no spinner, no error,
    no quiz, no results. *)
Example reply_without_questions_shows_nothing :
  blocks (ui (fst (onSubmit with_count "" (scripted [Responded (reply (json_text "{}"))])
                     (two_files (VStr "3")) no_world)))
  = (false, false, false, false).
Proof. vm_compute. reflexivity. Qed.
(** ** Scoring on any stored value *)

Lemma tally_with_properties s q i c :
  has_properties q = true ->
  exists hit : bool, tally s q i c = Ok (if hit then S c else c).
Proof.
  intros Hq. unfold tally, is_correct.
  destruct q; try done; simpl; eauto.
Qed.

Lemma tally_without_properties s q i c :
  has_properties q = false -> tally s q i c = Throw TypeError.
Proof. by destruct q. Qed.

Lemma each_tally_any s items : forall i c,
  if forallb has_properties items
  then exists c', each (tally s) items i c = Ok c' /\ c <= c' <= c + length items
  else each (tally s) items i c = Throw TypeError.
Proof.
  induction items as [|q items IH]; intros i c.
  - simpl. exists c. split; [done|lia].
  - rewrite each_cons. simpl forallb. destruct (has_properties q) eqn:Hq; simpl.
    + destruct (tally_with_properties s q i c Hq) as [hit ->].
      specialize (IH (S i) (if hit then S c else c)).
      destruct (forallb has_properties items); [|done].
      destruct IH as (c' & -> & Hc'). exists c'. split; [done|].
      destruct hit; simpl; lia.
    + by rewrite tally_without_properties.
Qed.

(** X8. [calculateResults] succeeds exactly on an array none of whose
    elements is [null] or [undefined]: it then stores the length of the
    array as the total and a score that does not exceed it.  On any other
    value of [questions], and on an array with a [null] in it, it throws a
    [TypeError]. *)
Theorem scoring_needs_records s :
  match questions s with
  | VArr items =>
      if forallb has_properties items
      then exists r, calculateResults s = Ok (setResults (Some r) s)
                     /\ totalQuestions r = length items /\ score r <= length items
      else calculateResults s = Throw TypeError
  | _ => calculateResults s = Throw TypeError
  end.
Proof.
  unfold calculateResults.
  destruct (questions s) as [| | | | |items|]; try done.
  unfold forEach. pose proof (each_tally_any s items 0 0) as H.
  destruct (forallb has_properties items).
  - destruct H as (c' & -> & Hc'). eexists. split; [reflexivity|]. simpl. split; [done|lia].
  - by rewrite H.
Qed.

(** X9. On a non-empty question set the accuracy is a number between 0 and
    100. *)
Theorem accuracy_is_a_percentage s qs :
  questions s = QuestionSet_value qs -> qs <> [] ->
  exists r q,
    calculateResults s = Ok (setResults (Some r) s)
    /\ accuracy r = Finite q /\ (0 <= q)%Q /\ (q <= 100)%Q.
Proof.
  intros Hq Hne. rewrite (calculateResults_spec s qs Hq).
  pose proof (correct_indices_bound (answers s) qs) as Hle.
  destruct qs as [|q0 qs']; [done|]. set (qs := q0 :: qs') in *.
  eexists. eexists. split; [reflexivity|]. simpl accuracy.
  change (length qs) with (S (length qs')) in *.
  set (c := length (correct_indices (answers s) qs)) in *.
  unfold divide, times_100. split; [reflexivity|]. split.
  - unfold Qle. simpl. lia.
  - unfold Qle. simpl. lia.
Qed.

Lemma accuracy_is_a_percentage_witness :
  exists r q,
    calculateResults (answering abc a_x_c) = Ok (setResults (Some r) (answering abc a_x_c))
    /\ accuracy r = Finite q /\ (0 <= q)%Q /\ (q <= 100)%Q.
Proof.
  apply (accuracy_is_a_percentage (answering abc a_x_c) abc); [reflexivity|discriminate].
Defined.

Lemma filter_length_all {A} (P : A -> Prop) `{forall x, Decision (P x)} (l : list A) :
  length (filter P l) = length l <-> Forall P l.
Proof.
  induction l as [|x l IH]; [by split|].
  rewrite filter_cons. destruct (decide (P x)) as [HP|HP]; simpl.
  - rewrite Forall_cons. split.
    + intros [= E]. split; [done|by apply IH].
    + intros [_ Hl]. f_equal. by apply IH.
  - pose proof (length_filter P l). split; [lia|]. by intros [? _]%Forall_cons.
Qed.

(** X10. The score equals the total exactly when every question of the set
    has been given its correct answer. *)
Theorem full_marks_iff_all_correct s qs :
  questions s = QuestionSet_value qs ->
  exists r,
    calculateResults s = Ok (setResults (Some r) s)
    /\ (score r = totalQuestions r <->
        forall i q, qs !! i = Some q -> answers s !! i = Some (correctAnswer q)).
Proof.
  intros Hq. rewrite (calculateResults_spec s qs Hq). eexists. split; [reflexivity|].
  simpl. unfold correct_indices.
  assert (length (filter (correct_at (answers s) qs) (seq 0 (length qs))) = length qs
          <-> Forall (correct_at (answers s) qs) (seq 0 (length qs))) as ->.
  { rewrite <- filter_length_all. by rewrite length_seq. }
  rewrite Forall_forall. split.
  - intros Hall i q Hi. specialize (Hall i). unfold correct_at in Hall.
    rewrite Hi in Hall. apply Hall. apply elem_of_seq. apply lookup_lt_Some in Hi. lia.
  - intros Hall i Hi. apply elem_of_seq in Hi. unfold correct_at.
    destruct (lookup_lt_is_Some_2 qs i ltac:(lia)) as [q Hqi]. rewrite Hqi. by apply Hall.
Qed.

Lemma full_marks_iff_all_correct_witness :
  exists r,
    calculateResults (answering abc a_x_c) = Ok (setResults (Some r) (answering abc a_x_c))
    /\ (score r = totalQuestions r <->
        forall i q, abc !! i = Some q
                    -> answers (answering abc a_x_c) !! i = Some (correctAnswer q)).
Proof. apply (full_marks_iff_all_correct (answering abc a_x_c) abc). reflexivity. Defined.

(** X11. On an empty array of questions nothing guards the division:
    [calculateResults] stores the score 0 of 0 with the accuracy [NaN], which
    the results block prints as NaN; and as an empty array is truthy, the
    quiz block with its submit button is shown for it. *)
Theorem empty_set_scores_NaN s :
  questions s = VArr [] ->
  calculateResults s =
    Ok (setResults (Some {| score := 0; accuracy := NaN; totalQuestions := 0 |}) s)
  /\ toFixed_2 NaN = "NaN"
  /\ shows_quiz (setResults None s) = true.
Proof.
  intros Hq. unfold calculateResults, shows_quiz. simpl. rewrite Hq. done.
Qed.

Lemma empty_set_scores_NaN_witness :
  calculateResults (generated (VArr [])) =
    Ok (setResults (Some {| score := 0; accuracy := NaN; totalQuestions := 0 |})
          (generated (VArr [])))
  /\ toFixed_2 NaN = "NaN"
  /\ shows_quiz (setResults None (generated (VArr []))) = true.
Proof. apply (empty_set_scores_NaN (generated (VArr []))). reflexivity. Defined.
(** ** Choosing answers *)

Lemma correct_after_select (a : gmap nat string) qs i x j :
  j ∈ correct_indices (<[i := x]> a) qs <->
    (j = i /\ exists q, qs !! i = Some q /\ x = correctAnswer q)
    \/ (j <> i /\ j ∈ correct_indices a qs).
Proof.
  unfold correct_indices.
  rewrite !list_elem_of_filter, !elem_of_seq. unfold correct_at.
  destruct (decide (j = i)) as [->|Hne].
  - rewrite lookup_insert_eq. split.
    + intros [Hx Hi]. left. split; [done|].
      destruct (lookup_lt_is_Some_2 qs i ltac:(lia)) as [q Hq]. rewrite Hq in Hx.
      exists q. split; [done|]. by injection Hx.
    + intros [(_ & q & Hq & ->)|[? _]]; [|done]. rewrite Hq. split; [done|].
      apply lookup_lt_Some in Hq. lia.
  - rewrite lookup_insert_ne by done. split.
    + intros H. by right.
    + intros [[? _]|[_ H]]; done.
Qed.

(** X12. Selecting an answer for question [i] changes the mark of question
    [i] only: afterwards [i] is correct exactly when the selected value is
    its correct answer (the last selection wins), every other index is
    correct exactly when it was before, and nothing but the answers
    changes. *)
Theorem selection_changes_one_mark s qs i x j :
  (j ∈ correct_indices (answers (handleAnswerSelect i x s)) qs <->
     (j = i /\ exists q, qs !! i = Some q /\ x = correctAnswer q)
     \/ (j <> i /\ j ∈ correct_indices (answers s) qs))
  /\ answers (handleAnswerSelect i x s) !! i = Some x
  /\ questions (handleAnswerSelect i x s) = questions s
  /\ results (handleAnswerSelect i x s) = results s
  /\ loading (handleAnswerSelect i x s) = loading s
  /\ error (handleAnswerSelect i x s) = error s.
Proof.
  split_and!; [apply correct_after_select|by apply lookup_insert_eq|done..].
Qed.

Lemma clicks_snoc cs c s :
  clicks (cs ++ [c]) s = choose (click_question c) (click_option c) (clicks cs s).
Proof. unfold clicks. by rewrite foldl_app. Qed.

Lemma clicks_questions cs : forall s, questions (clicks cs s) = questions s.
Proof. induction cs as [|c cs IH]; intros s; [done|]. simpl. by rewrite IH. Qed.

Lemma clicks_results cs : forall s,
  results (clicks cs s) = results s /\ loading (clicks cs s) = loading s
  /\ error (clicks cs s) = error s.
Proof.
  induction cs as [|c cs IH]; intros s; [done|]. simpl.
  destruct (IH (choose (click_question c) (click_option c) s)) as (-> & -> & ->). done.
Qed.

Lemma clicks_answers qs cs : forall s,
  Forall (offered qs) cs ->
  (forall i x, answers s !! i = Some x ->
     exists q j, qs !! i = Some q /\ j < length (options q) /\ x = option_value j) ->
  forall i x, answers (clicks cs s) !! i = Some x ->
     exists q j, qs !! i = Some q /\ j < length (options q) /\ x = option_value j.
Proof.
  induction cs as [|c cs IH]; intros s Hall Hs; [done|].
  apply Forall_cons in Hall as [(q & Hq & Hj) Hall]. simpl.
  apply IH; [done|]. intros i x. unfold choose, handleAnswerSelect. simpl.
  destruct (decide (i = click_question c)) as [->|Hne].
  - rewrite lookup_insert_eq. intros [= <-]. by exists q, (click_option c).
  - rewrite lookup_insert_ne by done. apply Hs.
Qed.

(** X13. The radio inputs only ever give the letters of the options.  So
    whatever the user chooses in the quiz, a question whose [correctAnswer]
    is not the letter of one of its options (the text of the option, say) is
    never marked correct. *)
Theorem unlettered_question_never_correct qs cs i q :
  Forall (offered qs) cs ->
  qs !! i = Some q -> ~ lettered q ->
  i ∉ correct_indices (answers (clicks cs (answering qs ∅))) qs.
Proof.
  intros Hall Hq Hnot [Hc _]%list_elem_of_filter. unfold correct_at in Hc.
  rewrite Hq in Hc. simpl in Hc.
  destruct (clicks_answers qs cs (answering qs ∅) Hall) with (i := i) (x := correctAnswer q)
    as (q' & j & Hq' & Hj & Hx); [|done|].
  - intros k x. simpl. by rewrite lookup_empty.
  - apply Hnot. rewrite Hq in Hq'. injection Hq' as <-. by exists j.
Qed.

Lemma unlettered_question_never_correct_witness :
  0 ∉ correct_indices
        (answers (clicks [ {| click_question := 0; click_option := 0 |};
                           {| click_question := 0; click_option := 1 |} ]
                    (answering [ {| questionText := "Capital of France?";
                                    options := ["Paris"; "Rome"];
                                    correctAnswer := "Paris"; solution := "Paris." |} ] ∅)))
        [ {| questionText := "Capital of France?"; options := ["Paris"; "Rome"];
             correctAnswer := "Paris"; solution := "Paris." |} ].
Proof.
  apply (unlettered_question_never_correct
           [ {| questionText := "Capital of France?"; options := ["Paris"; "Rome"];
                correctAnswer := "Paris"; solution := "Paris." |} ]
           [ {| click_question := 0; click_option := 0 |};
             {| click_question := 0; click_option := 1 |} ]
           0
           {| questionText := "Capital of France?"; options := ["Paris"; "Rome"];
              correctAnswer := "Paris"; solution := "Paris." |}).
  - repeat constructor; eexists; (split; [reflexivity|simpl; lia]).
  - reflexivity.
  - intros (j & Hj & Hx). simpl in Hj, Hx.
    destruct j as [|[|j]]; [discriminate Hx|discriminate Hx|lia].
Defined.

(** X14. Choosing, last for its question, the option whose letter is the
    question's [correctAnswer] marks the question correct, whatever was
    chosen before. *)
Theorem choosing_the_letter_is_correct qs cs s i j q :
  qs !! i = Some q -> correctAnswer q = option_value j ->
  i ∈ correct_indices (answers (clicks (cs ++ [{| click_question := i; click_option := j |}]) s)) qs.
Proof.
  intros Hq Hx. rewrite clicks_snoc. simpl.
  apply (correct_after_select (answers (clicks cs s)) qs i (option_value j) i).
  left. split; [done|]. by exists q.
Qed.

Lemma choosing_the_letter_is_correct_witness :
  1 ∈ correct_indices
        (answers (clicks ([ {| click_question := 1; click_option := 3 |} ]
                          ++ [ {| click_question := 1; click_option := 1 |} ])
                    (answering abc ∅))) abc.
Proof.
  apply (choosing_the_letter_is_correct abc [ {| click_question := 1; click_option := 3 |} ]
           (answering abc ∅) 1 1
           {| questionText := "second"; options := ["1"; "2"; "3"; "4"];
              correctAnswer := "B"; solution := "two" |});
    reflexivity.
Defined.

(** X15. From generation to the score: in the state a successful generation
    of a question set leaves, the quiz and nothing else is shown; choosing
    answers keeps it so; [calculateResults] then succeeds, keeps the
    questions and the answers, and leaves the results block shown instead of
    the quiz. *)
Theorem quiz_then_results qs cs :
  exists r,
    blocks (generated (QuestionSet_value qs)) = (false, false, true, false)
    /\ blocks (clicks cs (generated (QuestionSet_value qs))) = (false, false, true, false)
    /\ calculateResults (clicks cs (generated (QuestionSet_value qs)))
       = Ok (setResults (Some r) (clicks cs (generated (QuestionSet_value qs))))
    /\ totalQuestions r = length qs
    /\ blocks (setResults (Some r) (clicks cs (generated (QuestionSet_value qs))))
       = (false, false, false, true).
Proof.
  set (s0 := generated (QuestionSet_value qs)).
  pose proof (clicks_questions cs s0) as Hq.
  destruct (clicks_results cs s0) as (Hr & Hl & He).
  assert (blocks (clicks cs s0) = (false, false, true, false)) as Hb.
  { unfold blocks, shows_spinner, shows_error, shows_quiz, shows_results.
    by rewrite Hq, Hr, Hl, He. }
  eexists. split_and!; [done|done|by apply (calculateResults_spec _ qs)|done|].
  unfold blocks, shows_spinner, shows_error, shows_quiz, shows_results in *. simpl.
  rewrite Hl, He, Hq. simpl. done.
Qed.
(** ** The exports *)

Lemma csv_row_question q i acc :
  csv_row (Question_value q) i acc = Ok (acc +:+ csv_line q).
Proof.
  unfold csv_row.
  change (get (Question_value q) "questionText") with (Ok (VStr (questionText q))).
  change (get (Question_value q) "correctAnswer") with (Ok (VStr (correctAnswer q))).
  change (get (Question_value q) "solution") with (Ok (VStr (solution q))).
  unfold mbind, result_bind, quoted_field, csv_line, csv_field.
  by rewrite !append_assoc.
Qed.

Lemma each_csv_row qs : forall i acc,
  each csv_row (map Question_value qs) i acc = Ok (acc +:+ concat_all (map csv_line qs)).
Proof.
  induction qs as [|q qs IH]; intros i acc.
  - simpl. by rewrite append_empty.
  - rewrite map_cons, each_cons, csv_row_question, IH. simpl. by rewrite append_assoc.
Qed.

(** X16. The CSV export of a question set is the header line followed by
    one line per question, in order: the question text, the correct answer
    and the solution, each in double quotes with its own double quotes
    doubled, separated by commas.  The options are not exported. *)
Theorem csv_export_of_question_set s qs :
  questions s = QuestionSet_value qs ->
  handleExport "csv" s =
    Ok (Some {| content := csv_text qs;
                filename := "neet_questions_and_solutions.csv";
                mime := "text/csv;charset=utf-8;" |}).
Proof.
  intros Hq. unfold handleExport. rewrite Hq. simpl truthy. simpl negb.
  change (String.eqb "csv" "csv") with true. cbv iota.
  unfold QuestionSet_value, forEach. rewrite each_csv_row. reflexivity.
Qed.

Lemma csv_export_of_question_set_witness :
  handleExport "csv" (answering abc a_x_c) =
    Ok (Some {| content := csv_text abc;
                filename := "neet_questions_and_solutions.csv";
                mime := "text/csv;charset=utf-8;" |}).
Proof. apply (csv_export_of_question_set (answering abc a_x_c) abc). reflexivity. Defined.

Lemma csv_row_any q i acc :
  if csv_ready q then exists row, csv_row q i acc = Ok row
  else csv_row q i acc = Throw TypeError.
Proof.
  unfold csv_ready, text_field, csv_row.
  destruct (get q "questionText") as [[]|[]] eqn:E1; simpl; try done;
    try (by destruct q).
  destruct (get q "correctAnswer") as [[]|[]] eqn:E2; simpl; try done;
    try (by destruct q).
  destruct (get q "solution") as [[]|[]] eqn:E3; simpl; try done;
    try (by destruct q).
  by eexists.
Qed.

Lemma each_csv_any items : forall i acc,
  if forallb csv_ready items then exists text, each csv_row items i acc = Ok text
  else each csv_row items i acc = Throw TypeError.
Proof.
  induction items as [|q items IH]; intros i acc.
  - simpl. by eexists.
  - rewrite each_cons. simpl forallb. pose proof (csv_row_any q i acc) as Hq.
    destruct (csv_ready q); simpl.
    + destruct Hq as [row ->]. apply IH.
    + by rewrite Hq.
Qed.

(** X17. The CSV export of an array of records produces a file exactly when
    the question text, the correct answer and the solution of every record
    are strings; if one of them is missing or is not a string in some record,
    the export throws a [TypeError] and nothing is downloaded. *)
Theorem csv_export_needs_text_fields s items :
  questions s = VArr items ->
  if forallb csv_ready items
  then exists text,
         handleExport "csv" s =
           Ok (Some {| content := text;
                       filename := "neet_questions_and_solutions.csv";
                       mime := "text/csv;charset=utf-8;" |})
  else handleExport "csv" s = Throw TypeError.
Proof.
  intros Hq. unfold handleExport. rewrite Hq. simpl truthy. simpl negb.
  change (String.eqb "csv" "csv") with true. cbv iota. unfold forEach.
  pose proof (each_csv_any items 0 csv_header) as H. unfold csv_header in H.
  destruct (forallb csv_ready items).
  - destruct H as [text ->]. by exists text.
  - by rewrite H.
Qed.

Lemma csv_export_needs_text_fields_witness :
  handleExport "csv" (generated (VArr [bare_question])) = Throw TypeError.
Proof.
  apply (csv_export_needs_text_fields (generated (VArr [bare_question])) [bare_question]).
  reflexivity.
Defined.






(** A record with options but no correct answer is exported with the word
    undefined. *)
Example txt_export_prints_undefined :
  handleExport "txt"
    (generated (VArr [VObj [("questionText", VStr "Q"); ("options", VArr [VStr "a"])]])) =
    Ok (Some {| content := "Question 1: Q" +:+ nl +:+ "  A. a" +:+ nl
                           +:+ "Correct Answer: undefined" +:+ nl
                           +:+ "Solution: undefined" +:+ nl +:+ nl;
                filename := "neet_questions_and_solutions.txt";
                mime := "text/plain;charset=utf-8" |}).
Proof. vm_compute. reflexivity. Qed.

(** X19. Doubling the double quotes loses nothing: two strings with the
    same escaped form are the same string. *)
Theorem double_quotes_injective s t :
  double_quotes s = double_quotes t -> s = t.
Proof.
  revert t. induction s as [|a s IH]; intros t H.
  - destruct t as [|b t]; [done|]. simpl in H. by destruct (Ascii.eqb b "034").
  - destruct t as [|b t]; simpl in H; [by destruct (Ascii.eqb a "034")|].
    destruct (Ascii.eqb a "034") eqn:Ha; destruct (Ascii.eqb b "034") eqn:Hb;
      simplify_eq; try congruence; f_equal; by apply IH.
Qed.

Lemma double_quotes_injective_witness :
  json_text "He said 'hi'" = json_text "He said 'hi'".
Proof.
  apply (double_quotes_injective (json_text "He said 'hi'") (json_text "He said 'hi'")).
  reflexivity.
Defined.

Lemma quote_count_app t u : quote_count (t +:+ u) = quote_count t + quote_count u.
Proof. induction t as [|a t IH]; [done|]. rewrite append_cons. simpl. rewrite IH. lia. Qed.

Lemma quote_count_doubled s : quote_count (double_quotes s) = 2 * quote_count s.
Proof.
  induction s as [|a s IH]; [done|]. simpl.
  destruct (Ascii.eqb a "034") eqn:Ha; simpl; rewrite ?Ha, IH; lia.
Qed.

(** X20. The escaped form has one character more per double quote, and a
    quoted field holds an even number of double quotes: two for each of the
    string's and the two around it. *)
Theorem quoted_field_is_balanced s :
  String.length (double_quotes s) = String.length s + quote_count s
  /\ quote_count (csv_field s) = 2 * quote_count s + 2.
Proof.
  split.
  - induction s as [|a s IH]; [done|]. simpl.
    destruct (Ascii.eqb a "034"); simpl; rewrite IH; lia.
  - unfold csv_field. rewrite !quote_count_app, quote_count_doubled. simpl. lia.
Qed.

Lemma colon_line_question q i lines :
  colon_line (Question_value q) i lines = Ok (lines ++ [colon_text q]).
Proof. reflexivity. Qed.

Lemma each_colon_line qs : forall i lines,
  each colon_line (map Question_value qs) i lines = Ok (lines ++ map colon_text qs).
Proof.
  induction qs as [|q qs IH]; intros i lines.
  - simpl. by rewrite app_nil_r.
  - rewrite map_cons, each_cons, colon_line_question, IH. simpl. by rewrite <- app_assoc.
Qed.

(** X21. The export of src/App.jsx writes one line per question, the
    question text, the correct answer and the solution joined by colons,
    with an empty line between two questions and nothing after the last;
    the options are not exported. *)
Theorem colon_export_of_question_set s qs :
  questions s = QuestionSet_value qs ->
  handleExport_images_only s =
    Ok (Some {| content := join (nl +:+ nl) (map colon_text qs);
                filename := "neet_questions_and_solutions.txt";
                mime := "text/plain;charset=utf-8" |}).
Proof.
  intros Hq. unfold handleExport_images_only. rewrite Hq. simpl truthy. simpl negb. cbv iota.
  unfold QuestionSet_value, forEach. by rewrite each_colon_line.
Qed.

Lemma colon_export_of_question_set_witness :
  handleExport_images_only (answering abc a_x_c) =
    Ok (Some {| content := join (nl +:+ nl) (map colon_text abc);
                filename := "neet_questions_and_solutions.txt";
                mime := "text/plain;charset=utf-8" |}).
Proof. apply (colon_export_of_question_set (answering abc a_x_c) abc). reflexivity. Defined.

(** X22. After a submit that ended with the error set, there is nothing to
    export, in either format of either revision, and scoring would throw:
    the questions are [null]. *)
Theorem nothing_left_after_failure rev key transport data w format :
  error (ui (fst (onSubmit rev key transport data w))) <> None ->
  handleExport format (ui (fst (onSubmit rev key transport data w))) = Ok None
  /\ handleExport_images_only (ui (fst (onSubmit rev key transport data w))) = Ok None
  /\ calculateResults (ui (fst (onSubmit rev key transport data w))) = Throw TypeError.
Proof.
  destruct (onSubmit_run rev key transport data w) as (added & final & -> & _ & _ & Hfinal).
  simpl. destruct Hfinal as [->|[qs ->]]; [done|]. simpl. done.
Qed.

Lemma nothing_left_after_failure_witness :
  handleExport "csv"
    (ui (fst (onSubmit with_count "" (scripted []) (two_files (VStr "3")) no_world))) = Ok None
  /\ handleExport_images_only
       (ui (fst (onSubmit with_count "" (scripted []) (two_files (VStr "3")) no_world)))
     = Ok None
  /\ calculateResults
       (ui (fst (onSubmit with_count "" (scripted []) (two_files (VStr "3")) no_world)))
     = Throw TypeError.
Proof.
  apply (nothing_left_after_failure with_count "" (scripted []) (two_files (VStr "3"))
           no_world "csv").
  discriminate.
Defined.


(** ** The accuracy as it is printed *)

Lemma toFixed_2_equal (q : Q) (c : Q) :
  (q == c)%Q -> (0 <= c)%Q -> toFixed_2 (Finite q) = toFixed_2 (Finite c).
Proof.
  intros Hq Hc. unfold toFixed_2.
  assert (Qfloor (Qabs q * 100 + (1 # 2)) = Qfloor (Qabs c * 100 + (1 # 2))) as ->
    by (by rewrite Hq).
  destruct (Qlt_le_dec c 0) as [Hneg'|_].
  { exfalso. by apply (Qlt_not_le _ _ Hneg'). }
  destruct (Qlt_le_dec q 0) as [Hneg|_]; [|done].
  exfalso. rewrite Hq in Hneg. by apply (Qlt_not_le _ _ Hneg).
Qed.

(** X24. On a non-empty question set, full marks are printed as 100.00 and
    no correct answer as 0.00. *)
Theorem printed_extremes s qs :
  questions s = QuestionSet_value qs -> qs <> [] ->
  exists r,
    calculateResults s = Ok (setResults (Some r) s)
    /\ (score r = length qs -> toFixed_2 (accuracy r) = "100.00")
    /\ (score r = 0 -> toFixed_2 (accuracy r) = "0.00").
Proof.
  intros Hq Hne. rewrite (calculateResults_spec s qs Hq).
  eexists. split; [reflexivity|]. cbn [score accuracy totalQuestions].
  destruct qs as [|q0 qs']; [done|]. set (qs := q0 :: qs') in *.
  change (length qs) with (S (length qs')).
  set (n := length qs'). split; intros ->.
  - change (times_100 (divide (S n) (S n)))
      with (Finite ((Z.of_nat (S n) # Pos.of_nat (S n)) * 100)).
    rewrite (toFixed_2_equal _ 100); [by vm_compute| |done].
    unfold Qeq. simpl. lia.
  - change (times_100 (divide 0 (S n)))
      with (Finite ((Z.of_nat 0 # Pos.of_nat (S n)) * 100)).
    rewrite (toFixed_2_equal _ 0); [by vm_compute| |done].
    unfold Qeq. simpl. lia.
Qed.

Lemma printed_extremes_witness :
  exists r,
    calculateResults (answering abc {[ 0 := "A"; 1 := "B"; 2 := "C" ]})
    = Ok (setResults (Some r) (answering abc {[ 0 := "A"; 1 := "B"; 2 := "C" ]}))
    /\ toFixed_2 (accuracy r) = "100.00".
Proof.
  destruct (printed_extremes (answering abc {[ 0 := "A"; 1 := "B"; 2 := "C" ]}) abc)
    as (r & Hrun & Hfull & _); [reflexivity|discriminate|].
  exists r. split; [exact Hrun|]. apply Hfull.
  rewrite (calculateResults_spec (answering abc {[ 0 := "A"; 1 := "B"; 2 := "C" ]}) abc
             eq_refl) in Hrun.
  injection Hrun as <-. reflexivity.
Defined.
